(** * ioisis.fieldutils: the subfield parser

    A shallow embedding of [SubfieldParser] (src/ioisis/fieldutils.py):
    the value model ([str] and [bytes]), the part of Python's [re] engine
    that the compiled pattern exercises, the pattern itself, the [findall]
    scan and the generator body of [__call__]. *)

From Stdlib Require Import ZArith NArith Ascii String DecimalString.
From stdpp Require Import gmap list strings.

Local Open Scope nat_scope.

(** ** Values

    A field, a prefix and a key are either a [str] (a sequence of code
    points) or a [bytes] (a sequence of octets). Both are kept as lists of
    unit codes; the constructor is the Python type. *)

Inductive pyval :=
| Str (s : list N)
| Bytes (b : list N).

Inductive pytype := TStr | TBytes.

Definition type_of (v : pyval) : pytype :=
  match v with Str _ => TStr | Bytes _ => TBytes end.

Definition units (v : pyval) : list N :=
  match v with Str s => s | Bytes b => b end.

Definition mk (t : pytype) (l : list N) : pyval :=
  match t with TStr => Str l | TBytes => Bytes l end.

Definition pytype_eqb (a b : pytype) : bool :=
  match a, b with TStr, TStr | TBytes, TBytes => true | _, _ => false end.

(** [bool(v)] of a string: non-empty. *)
Definition truthy (v : pyval) : bool :=
  match units v with [] => false | _ :: _ => true end.

#[global] Instance pyval_eq_dec : EqDecision pyval.
Proof. solve_decision. Defined.

#[global] Instance pyval_countable : Countable pyval.
Proof.
  refine (inj_countable'
            (fun v => match v with Str s => inl s | Bytes b => inr b end)
            (fun x => match x with inl s => Str s | inr b => Bytes b end) _).
  intros []; reflexivity.
Defined.

(** The code points of an ASCII literal. *)
Definition codes (s : string) : list N :=
  map N_of_ascii (list_ascii_of_string s).

Definition newline : N := 10%N.

(** ["%d" % n] for a non-negative [n], and for any integer. *)
Definition decimal (n : nat) : list N :=
  codes (NilEmpty.string_of_uint (Nat.to_uint n)).

Definition decimal_Z (z : Z) : list N :=
  codes (NilZero.string_of_int (Z.to_int z)).

(** Exceptions that construction or a call can raise. *)
Inductive exn := TypeError | OverflowError.

(** What running a piece of the program gives: a value, an exception, or
    no answer within the step budget of the scan loop. *)
Inductive outcome (A : Type) :=
| Returns (a : A)
| Raises (e : exn)
| Unfinished.
Arguments Returns {A} a.
Arguments Raises {A} e.
Arguments Unfinished {A}.

#[global] Instance outcome_bind : MBind outcome := fun A B f c =>
  match c with
  | Returns a => f a
  | Raises e => Raises e
  | Unfinished => Unfinished
  end.

(** [a + b] on strings: concatenation within one type, [TypeError] across. *)
Definition py_add (a b : pyval) : outcome pyval :=
  match a, b with
  | Str x, Str y => Returns (Str (x ++ y))
  | Bytes x, Bytes y => Returns (Bytes (x ++ y))
  | _, _ => Raises TypeError
  end.

(** [bytes.lower()]: only the ASCII capitals change. *)
Definition byte_lower (c : N) : N :=
  if ((65 <=? c) && (c <=? 90))%N then (c + 32)%N else c.

(** ** The regular-expression engine

    The fragment of [re] that the pattern of [__init__] uses, with the
    engine's backtracking order: alternatives from left to right, the
    lazy repetition from the shortest run up. The scan is that of
    [findall] since Python 3.7: the search after an empty match starts
    at the same offset and must advance. *)
Module SRE.

Inductive re :=
| Literal (s : list N)        (* an escaped literal run *)
| Any_n (n : nat)             (* [.{n}] under DOTALL *)
| Min_repeat_any              (* [.*?] under DOTALL *)
| At_beginning                (* [^] without MULTILINE *)
| At_end                      (* [$] without MULTILINE *)
| Seq (r1 r2 : re)
| Branch (r1 r2 : re)         (* [r1|r2] *)
| Group (i : nat) (r : re)    (* capturing group number [i] *)
| Assert (r : re).            (* [(?=r)] *)

(** The state of a match in progress: the offset reached, the units
    still ahead, and the groups closed so far (most recent first). *)
Record state := State {
  ptr : nat;
  rest : list N;
  marks : list (nat * list N)
}.

(** [s] is a prefix of [l]: what follows it. *)
Fixpoint strip (s l : list N) : option (list N) :=
  match s, l with
  | [], _ => Some l
  | _ :: _, [] => None
  | a :: s', b :: l' => if (a =? b)%N then strip s' l' else None
  end.

(** [$] holds at the end and just before a newline that ends the
    subject. *)
Definition at_end (l : list N) : bool :=
  match l with
  | [] => true
  | [c] => (c =? newline)%N
  | _ => false
  end.

(** [.*?] followed by [k]: the shortest run after which [k] succeeds. *)
Fixpoint min_repeat {A} (p : nat) (l : list N)
         (k : nat -> list N -> option A) : option A :=
  match k p l with
  | Some a => Some a
  | None =>
      match l with
      | [] => None
      | _ :: l' => min_repeat (S p) l' k
      end
  end.

(** Backtracking match of [r] at [st], then [k]. *)
Fixpoint mt (r : re) (st : state) (k : state -> option state)
  : option state :=
  match r with
  | Literal s =>
      match strip s (rest st) with
      | Some l => k (State (ptr st + length s) l (marks st))
      | None => None
      end
  | Any_n n =>
      if n <=? length (rest st)
      then k (State (ptr st + n) (drop n (rest st)) (marks st))
      else None
  | Min_repeat_any =>
      min_repeat (ptr st) (rest st) (fun p l => k (State p l (marks st)))
  | At_beginning => if ptr st =? 0 then k st else None
  | At_end => if at_end (rest st) then k st else None
  | Seq r1 r2 => mt r1 st (fun st' => mt r2 st' k)
  | Branch r1 r2 =>
      match mt r1 st k with
      | Some out => Some out
      | None => mt r2 st k
      end
  | Group i r =>
      mt r st (fun st' =>
        k (State (ptr st') (rest st')
                 ((i, take (ptr st' - ptr st) (rest st)) :: marks st')))
  | Assert r =>
      match mt r st Some with
      | Some st' => k (State (ptr st) (rest st) (marks st'))
      | None => None
      end
  end.

(** The end of the pattern. After an empty match the scan asks for a
    match that advances: an empty one at the same offset is refused and
    the engine backtracks. *)
Definition success (must_advance : bool) (start : nat) (st : state)
  : option state :=
  if must_advance && (ptr st =? start) then None else Some st.

(** One match attempt anchored at offset [p]. *)
Definition match_at (r : re) (p : nat) (l : list N) (must_advance : bool)
  : option state :=
  mt r (State p l []) (success must_advance p).

(** [search]: the first offset from [p] on at which the pattern matches.
    Only the attempt at [p] itself is subject to [must_advance]. *)
Fixpoint search (r : re) (p : nat) (l : list N) (must_advance : bool)
  : option (nat * state) :=
  match match_at r p l must_advance with
  | Some st => Some (p, st)
  | None =>
      match l with
      | [] => None
      | _ :: l' => search r (S p) l' false
      end
  end.

(** The scan shared by [findall] and [finditer]: search, record the
    match, continue from its end; [must_advance] is set when the match
    was empty. [None] when the step budget runs out. *)
Fixpoint scan (fuel : nat) (r : re) (p : nat) (l : list N)
         (must_advance : bool) : option (list (nat * state)) :=
  match fuel with
  | 0 => None
  | S fuel' =>
      match search r p l must_advance with
      | None => Some []
      | Some (start, st) =>
          match scan fuel' r (ptr st) (rest st) (ptr st =? start) with
          | Some ms => Some ((start, st) :: ms)
          | None => None
          end
      end
  end.

(** The text of group [i] in a finished match; a group that took no
    part in the match gives the empty string. *)
Fixpoint group (i : nat) (ms : list (nat * list N)) : option (list N) :=
  match ms with
  | [] => None
  | (j, s) :: ms' => if j =? i then Some s else group i ms'
  end.

Definition getslice (i : nat) (st : state) : list N :=
  default [] (group i (marks st)).

Definition budget (l : list N) : nat := 2 * length l + 2.

(** [finditer] on the units of a subject, from offset 0. *)
Definition finditer (r : re) (l : list N) : option (list (nat * state)) :=
  scan (budget l) r 0 l false.

(** [findall] for a pattern with two groups: the pair of group texts
    of every match. *)
Definition findall (r : re) (l : list N)
  : option (list (list N * list N)) :=
  match finditer r l with
  | Some ms => Some (map (fun m => (getslice 1 (snd m), getslice 2 (snd m))) ms)
  | None => None
  end.

(** A compiled pattern remembers whether it was compiled from [str] or
    from [bytes]. *)
Record pattern := Pattern { pattern_type : pytype; pattern_re : re }.

Definition MAXREPEAT : Z := 4294967295.

(** *** Vocabulary for the facts about the engine *)

(** [st'] is [st] after consuming some units. *)
Definition extends (st st' : state) : Prop :=
  exists c, rest st = c ++ rest st' /\ ptr st' = ptr st + length c.

(** What the look-ahead of the pattern asks of the units ahead: the end
    of the subject in the sense of [$], or the prefix. *)
Definition lookahead (P l : list N) : Prop :=
  at_end l = true \/ is_Some (strip P l).

End SRE.

(** Calling [findall] on a compiled pattern: the subject must be of the
  pattern's type; the texts found are slices of the subject. *)
Definition pattern_findall (p : SRE.pattern) (field : pyval)
: outcome (list (pyval * pyval)) :=
if pytype_eqb (SRE.pattern_type p) (type_of field) then
  match SRE.findall (SRE.pattern_re p) (units field) with
  | Some found =>
      Returns (map (fun kv => (mk (type_of field) kv.1,
                               mk (type_of field) kv.2)) found)
  | None => Unfinished
  end
else Raises TypeError.

(** ** SubfieldParser *)
Module SubfieldParser.
Import SRE.

(** The attributes that [__init__] sets. *)
Record t := Build {
  lower : bool;
  first : option pyval;
  empty : bool;
  number : bool;
  zero : bool;
  percent_d : pyval;
  subfields_regex : pattern
}.

(** [.{%d}] with the length filled in, as the pattern compiler reads it.
    A negative count is no repetition: one [.] and then the braces as
    literal text. A count of [MAXREPEAT] or more is refused. *)
Definition key_slot (length : Z) : outcome re :=
  if (length <? 0)%Z then
    Returns (Seq (Any_n 1)
                 (Literal (codes "{" ++ decimal_Z length ++ codes "}")))
  else if (MAXREPEAT <=? length)%Z then Raises OverflowError
  else Returns (Any_n (Z.to_nat length)).

(** [(?:^|P(.{L}))(.*?)(?=$|P.{L})] with the escaped prefix for [P]. *)
Definition regex (prefix : list N) (slot : re) : re :=
  Seq (Branch At_beginning (Seq (Literal prefix) (Group 1 slot)))
      (Seq (Group 2 Min_repeat_any)
           (Assert (Branch At_end (Seq (Literal prefix) slot)))).

(** [__init__]. *)
Definition init (prefix : pyval) (length : Z) (lower : bool)
           (first : option pyval) (empty number zero : bool) : outcome t :=
  slot ← key_slot length;
  Returns (Build lower first empty number zero
                 (mk (type_of prefix) (codes "%d"))
                 (Pattern (type_of prefix) (regex (units prefix) slot))).

(** [self.percent_d % suffix_int]: the decimal text, of the type of the
    format. *)
Definition percent_d_mod (fmt : pyval) (n : nat) : pyval :=
  mk (type_of fmt) (decimal n).

Section Call.
(** [str.lower] is the interpreter's Unicode lower-casing. *)
Variable str_lower : list N -> list N.

Definition py_lower (key : pyval) : pyval :=
  match key with
  | Str s => Str (str_lower s)
  | Bytes b => Bytes (map byte_lower b)
  end.

(** The body of the generator, over the matches still to visit, with
    the [Counter] as it stands. *)
Fixpoint generate (self : t) (key_count : gmap pyval nat)
         (found : list (pyval * pyval)) : outcome (list (pyval * pyval)) :=
  match found with
  | [] => Returns []
  | (key, value) :: found' =>
      if empty self || truthy value then
        let key :=
          match first self with
          | Some f => if truthy f && negb (truthy key) then f else key
          | None => key
          end in
        let key := if lower self then py_lower key else key in
        key ← (if number self then
                 let suffix_int := default 0 (key_count !! key) in
                 if zero self || (0 <? suffix_int)
                 then py_add key (percent_d_mod (percent_d self) suffix_int)
                 else Returns key
               else Returns key);
        pairs ← generate self
                  (<[key := S (default 0 (key_count !! key))]> key_count)
                  found';
        Returns ((key, value) :: pairs)
      else generate self key_count found'
  end.

(** [list(self(field))]: the counter starts empty at every call. *)
Definition call (self : t) (field : pyval)
  : outcome (list (pyval * pyval)) :=
  found ← pattern_findall (subfields_regex self) field;
  generate self ∅ found.

End Call.

End SubfieldParser.

(** ** The call with its Counter in a store

    [__call__] once more, with the [Counter] of line 70 as an object.
    The store holds every [Counter] allocated so far, a reference is an
    index into it, and the generator reads and increments its counter
    through the reference [key_count]. *)

(** [Counter()]: a new, empty counter at a reference not in use. *)
Definition new_Counter (store : list (gmap pyval nat))
  : nat * list (gmap pyval nat) :=
  (length store, store ++ [∅]).

(** [key_count[key]]: 0 for a key that the counter does not hold. *)
Definition Counter_getitem (store : list (gmap pyval nat)) (ref : nat)
           (key : pyval) : nat :=
  match store !! ref with
  | Some counter => default 0 (counter !! key)
  | None => 0
  end.

(** [key_count[key] += 1]. *)
Definition Counter_increment (store : list (gmap pyval nat)) (ref : nat)
           (key : pyval) : list (gmap pyval nat) :=
  match store !! ref with
  | Some counter =>
      <[ref := <[key := S (default 0 (counter !! key))]> counter]> store
  | None => store
  end.

(** The body of the generator, lines 71 to 82, on the store. *)
Fixpoint generate_in (str_lower : list N -> list N)
         (self : SubfieldParser.t) (key_count : nat)
         (found : list (pyval * pyval)) (store : list (gmap pyval nat))
  : outcome (list (pyval * pyval)) * list (gmap pyval nat) :=
  match found with
  | [] => (Returns [], store)
  | (key, value) :: found' =>
      if SubfieldParser.empty self || truthy value then
        let key :=
          match SubfieldParser.first self with
          | Some f => if truthy f && negb (truthy key) then f else key
          | None => key
          end in
        let key := if SubfieldParser.lower self
                   then SubfieldParser.py_lower str_lower key else key in
        match (if SubfieldParser.number self then
                 let suffix_int := Counter_getitem store key_count key in
                 if SubfieldParser.zero self || (0 <? suffix_int)
                 then py_add key (SubfieldParser.percent_d_mod
                                    (SubfieldParser.percent_d self)
                                    suffix_int)
                 else Returns key
               else Returns key) with
        | Returns key =>
            let (later, store) :=
              generate_in str_lower self key_count found'
                          (Counter_increment store key_count key) in
            (pairs ← later; Returns ((key, value) :: pairs), store)
        | Raises e => (Raises e, store)
        | Unfinished => (Unfinished, store)
        end
      else generate_in str_lower self key_count found' store
  end.

(** [list(self(field))] on the store: line 70 allocates the counter,
    line 71 scans the field, the loop runs on the matches. *)
Definition call_in (str_lower : list N -> list N)
           (self : SubfieldParser.t) (field : pyval)
           (store : list (gmap pyval nat))
  : outcome (list (pyval * pyval)) * list (gmap pyval nat) :=
  let (key_count, store) := new_Counter store in
  match pattern_findall (SubfieldParser.subfields_regex self) field with
  | Returns found => generate_in str_lower self key_count found store
  | Raises e => (Raises e, store)
  | Unfinished => (Unfinished, store)
  end.

(** ** Companions of the claims *)

(** The units of the field rebuilt from a list of pairs, in the order
  in which the test module puts them together
  (SFP_DATA_FIELD_RESYNTH_ASSUMING_EMPTY): the first value, then for
  every later pair the prefix, the key cut to [length] units and the
  value. Nothing is built from an empty list. The expression itself,
  with the types of its operands, is [field_resynth] below. *)
Definition resynth (prefix : list N) (length : nat)
         (expected : list (pyval * pyval)) : option (list N) :=
match expected with
| [] => None
| first_pair :: later =>
    Some (units first_pair.2 ++
          concat (map (fun kv => prefix ++ take length (units kv.1)
                                        ++ units kv.2) later))
end.

(** [v[:stop]]: the units before position [stop], which counts from
    the end when it is negative. *)
Definition py_slice_to (stop : Z) (v : pyval) : pyval :=
mk (type_of v)
   (if (0 <=? stop)%Z then take (Z.to_nat stop) (units v)
    else take (length (units v) - Z.to_nat (- stop)) (units v)).

(** The items of a generator expression, up to the first exception. *)
Fixpoint outcome_map {A B} (f : A -> outcome B) (l : list A)
  : outcome (list B) :=
match l with
| [] => Returns []
| x :: l' => y ← f x; ys ← outcome_map f l'; Returns (y :: ys)
end.

(** [str.join] of the empty [str]: every item has to be a [str]. *)
Definition str_join (items : list pyval) : outcome pyval :=
if forallb (fun item => pytype_eqb (type_of item) TStr) items
then Returns (Str (concat (map units items)))
else Raises TypeError.

(** The expression of SFP_DATA_FIELD_RESYNTH_ASSUMING_EMPTY itself, with
    the types of its operands: the join is the join of a [str], and
    each [+] raises on a [str] and a [bytes]. [resynth] gives the units
    of its result when every operand is a [str]. *)
Definition field_resynth (prefix : pyval) (length : Z)
         (expected : list (pyval * pyval)) : option (outcome pyval) :=
match expected with
| [] => None
| first_pair :: later =>
    Some (items ← outcome_map
                    (fun kv => marked ← py_add prefix
                                               (py_slice_to length kv.1);
                               py_add marked kv.2)
                    later;
          joined ← str_join items;
          py_add first_pair.2 joined)
end.

(** The number of offsets of [field] at which [prefix] occurs. *)
Fixpoint occurrences (prefix field : list N) : nat :=
(if SRE.strip prefix field is Some _ then 1 else 0) +
match field with
| [] => 0
| _ :: field' => occurrences prefix field'
end.

(** A stand-in for [str.lower] on closed examples: ASCII capitals only. *)
Definition ascii_lower (s : list N) : list N := map byte_lower s.

Definition S_ (s : string) : pyval := Str (codes s).
Definition B_ (s : string) : pyval := Bytes (codes s).

(** The units ahead begin with the prefix and a full key slot of [L]
    units. *)
Definition marker_at (P : list N) (L : nat) (l : list N) : Prop :=
  exists l1 : list N, SRE.strip P l = Some l1 /\ L <= length l1.

(** The stretch of the field that a match covers, read back from its
    groups: the value alone for a match without key slot, and otherwise
    the prefix, the key slot and the value. *)
Definition match_text (P : list N) (m : nat * SRE.state) : list N :=
  match SRE.group 1 (SRE.marks m.2) with
  | Some key => P ++ key ++ SRE.getslice 2 m.2
  | None => SRE.getslice 2 m.2
  end.

(** The texts [vs] lie in [l] one after the other, in this order and
    without overlap. *)
Inductive slices_in_order : list (list N) -> list N -> Prop :=
| slices_nil (l : list N) : slices_in_order [] l
| slices_cons (v : list N) (vs : list (list N)) (gap l : list N) :
    slices_in_order vs l -> slices_in_order (v :: vs) (gap ++ v ++ l).

(** The same units as a string of the other type. *)
Definition as_other_type (v : pyval) : pyval :=
  match v with Str s => Bytes s | Bytes b => Str b end.

(** ** The command line module (src/ioisis/__main__.py) *)

(** [apply_decorators] of a tuple of decorators, applied to [func]: the
    fold of [reduce] over the reversed tuple, every step applying the
    next decorator to what has been built. *)
Definition apply_decorators {A : Type} (decorators : list (A -> A))
           (func : A) : A :=
  fold_left (fun f d => d f) (rev decorators) func.

(** * Facts about the engine *)

Import SRE.

Lemma strip_Some (s l l' : list N) : strip s l = Some l' -> l = s ++ l'.
Proof.
  revert l. induction s as [|a s IH]; intros [|b l]; simpl; try congruence.
  destruct (N.eqb_spec a b) as [->|]; [|congruence].
  intros H. f_equal. now apply IH.
Qed.

Lemma strip_app (s l : list N) : strip s (s ++ l) = Some l.
Proof.
  induction s as [|a s IH]; simpl; [reflexivity|].
  now rewrite N.eqb_refl.
Qed.

Lemma min_repeat_inv {A} (k : nat -> list N -> option A) (l : list N) :
  forall p a, min_repeat p l k = Some a ->
  exists c l', l = c ++ l' /\ k (p + length c) l' = Some a.
Proof.
  induction l as [|x l IH]; intros p a; simpl.
  - destruct (k p []) eqn:E; [|discriminate].
    intros [= ->]. exists [], []. simpl. now rewrite Nat.add_0_r.
  - destruct (k p (x :: l)) eqn:E.
    + intros [= ->]. exists [], (x :: l). simpl. now rewrite Nat.add_0_r.
    + intros H. destruct (IH _ _ H) as (c & l' & -> & Hk).
      exists (x :: c), l'. simpl. split; [reflexivity|].
      now rewrite Nat.add_succ_r.
Qed.

Lemma extends_refl st : extends st st.
Proof. exists []. simpl. auto with arith. Qed.

Lemma extends_trans st1 st2 st3 :
  extends st1 st2 -> extends st2 st3 -> extends st1 st3.
Proof.
  intros (c1 & H1 & P1) (c2 & H2 & P2). exists (c1 ++ c2).
  rewrite H1, H2, P2, P1, length_app, <- app_assoc. split; [reflexivity|lia].
Qed.

(** Whatever the pattern, a match only moves forward in the subject and
    ends by handing a later state to its continuation. *)
Lemma mt_extends (r : re) :
  forall st k out, mt r st k = Some out ->
  exists st', extends st st' /\ k st' = Some out.
Proof.
  induction r as [s|n| | | |r1 IH1 r2 IH2|r1 IH1 r2 IH2|i r IH|r IH];
    intros st k out; simpl.
  - destruct (strip s (rest st)) as [l|] eqn:E; [|discriminate].
    intros H. eexists; split; [|exact H].
    exists s. simpl. split; [now apply strip_Some|reflexivity].
  - destruct (Nat.leb_spec n (length (rest st))) as [Hle|Hgt]; [|discriminate].
    intros H. eexists; split; [|exact H].
    exists (take n (rest st)). simpl.
    rewrite take_drop, length_take. split; [reflexivity|lia].
  - intros H. apply min_repeat_inv in H as (c & l' & E & H).
    eexists; split; [|exact H]. exists c. simpl. auto.
  - destruct (ptr st =? 0); [|discriminate].
    intros H. exists st. split; [apply extends_refl|exact H].
  - destruct (at_end (rest st)); [|discriminate].
    intros H. exists st. split; [apply extends_refl|exact H].
  - intros H. apply IH1 in H as (st1 & E1 & H).
    apply IH2 in H as (st2 & E2 & H).
    exists st2. split; [eapply extends_trans; eassumption|exact H].
  - destruct (mt r1 st k) eqn:E.
    + intros [= ->]. now apply IH1.
    + apply IH2.
  - intros H. apply IH in H as (st1 & E1 & H).
    eexists; split; [|exact H]. exact E1.
  - destruct (mt r st Some) as [st'|] eqn:E; [|discriminate].
    intros H. eexists; split; [|exact H]. exists []. simpl. auto with arith.
Qed.

Lemma match_at_extends r p l must_advance st :
  match_at r p l must_advance = Some st ->
  exists c, l = c ++ rest st /\ ptr st = p + length c /\
            (must_advance = true -> c <> []).
Proof.
  unfold match_at. intros H.
  apply mt_extends in H as (st' & (c & Hc & Hp) & H). simpl in Hc, Hp.
  unfold success in H.
  destruct (must_advance && (ptr st' =? p)) eqn:E; [discriminate|].
  injection H as <-. exists c. repeat split; try assumption.
  intros -> ->. simpl in *. rewrite Hp, Nat.add_0_r, Nat.eqb_refl in E.
  discriminate.
Qed.

Lemma search_here r p l must_advance st :
  match_at r p l must_advance = Some st ->
  search r p l must_advance = Some (p, st).
Proof. intros H. destruct l; simpl; now rewrite H. Qed.

(** A search result is a match anchored at some later offset; the demand
    to advance applies only when that offset is the starting one. *)
Lemma search_inv r :
  forall l p must_advance start st,
  search r p l must_advance = Some (start, st) ->
  exists c1 l2 ma,
    l = c1 ++ l2 /\ start = p + length c1 /\
    match_at r start l2 ma = Some st /\
    (c1 = [] -> ma = must_advance).
Proof.
  induction l as [|x l IH]; intros p ma start st; simpl.
  - destruct (match_at r p [] ma) eqn:E; [|discriminate].
    intros [= <- <-]. exists nil, nil, ma. simpl.
    rewrite Nat.add_0_r. auto.
  - destruct (match_at r p (x :: l) ma) eqn:E.
    + intros [= <- <-]. exists nil, (x :: l), ma. simpl.
      rewrite Nat.add_0_r. auto.
    + intros H. apply IH in H as (c1 & l2 & ma' & -> & -> & H & _).
      exists (x :: c1), l2, ma'. simpl.
      repeat split; [lia|assumption|discriminate].
Qed.

(** The scan always finishes within a budget of two steps per unit (an
    empty match may be followed by one more match at the same offset)
    plus two. *)
Lemma scan_total r :
  forall fuel p (l : list N) (must_advance : bool),
  2 * length l + (if must_advance then 1 else 2) <= fuel ->
  is_Some (scan fuel r p l must_advance).
Proof.
  induction fuel as [|fuel IH]; intros p l ma Hfuel.
  - destruct ma; lia.
  - simpl. destruct (search r p l ma) as [[start st]|] eqn:E; [|eauto].
    apply search_inv in E as (c1 & l2 & ma' & -> & -> & E & Hma).
    apply match_at_extends in E as (c & -> & Hp & Hadv).
    destruct (IH (ptr st) (rest st) (ptr st =? p + length c1)) as [ms ->];
      [|eauto].
    rewrite length_app in Hfuel.
    destruct (Nat.eqb_spec (ptr st) (p + length c1)) as [Heq|Hne].
    + assert (c = []) as -> by (destruct c; [reflexivity|simpl in *; lia]).
      destruct c1 as [|x c1]; simpl in *; [|lia].
      destruct ma; [|lia].
      exfalso. now apply Hadv; [apply Hma|].
    + destruct c as [|x c]; simpl in *; [lia|].
      rewrite length_app in Hfuel. destruct ma; simpl in Hfuel; lia.
Qed.

Lemma finditer_total r l : is_Some (finditer r l).
Proof. apply scan_total. unfold budget. lia. Qed.

Lemma findall_total r l : is_Some (findall r l).
Proof.
  unfold findall. destruct (finditer_total r l) as [ms ->]. eauto.
Qed.

(** * Facts about the compiled pattern *)

Import SubfieldParser.

Lemma success_inv must_advance p st' st :
  success must_advance p st' = Some st ->
  st' = st /\ (must_advance = true -> ptr st <> p).
Proof.
  unfold success.
  destruct must_advance; simpl; [|intros [= ->]; split; [reflexivity|discriminate]].
  destruct (Nat.eqb_spec (ptr st') p); [discriminate|].
  intros [= ->]. auto.
Qed.

(** The value group and the look-ahead, whatever the key slot is. *)
Lemma regex_tail_inv P slot st k out :
  mt (Seq (Group 2 Min_repeat_any)
          (Assert (Branch At_end (Seq (Literal P) slot)))) st k = Some out ->
  exists st', extends st st' /\ k st' = Some out /\ lookahead P (rest st').
Proof.
  cbn [mt]. intros H.
  apply min_repeat_inv in H as (c & l' & Hl & H). cbn [ptr rest marks] in H.
  destruct (at_end l') eqn:Eend.
  - eexists; split; [|split; [exact H|]].
    + exists c. simpl. auto.
    + left. exact Eend.
  - destruct (strip P l') as [l1|] eqn:Es; [|discriminate].
    destruct (mt slot _ Some) as [st1|] eqn:Em; [|discriminate].
    eexists; split; [|split; [exact H|]].
    + exists c. simpl. auto.
    + right. simpl. rewrite Es. eauto.
Qed.

Lemma mt_Seq r1 r2 st k :
  mt (Seq r1 r2) st k = mt r1 st (fun st' => mt r2 st' k).
Proof. reflexivity. Qed.

Lemma mt_Branch r1 r2 st k :
  mt (Branch r1 r2) st k =
  match mt r1 st k with Some out => Some out | None => mt r2 st k end.
Proof. reflexivity. Qed.

Lemma mt_At_beginning st k :
  mt At_beginning st k = if ptr st =? 0 then k st else None.
Proof. reflexivity. Qed.

Lemma mt_Literal s st k :
  mt (Literal s) st k =
  match strip s (rest st) with
  | Some l => k (State (ptr st + length s) l (marks st))
  | None => None
  end.
Proof. reflexivity. Qed.

Lemma mt_Group i r st k :
  mt (Group i r) st k =
  mt r st (fun st' =>
    k (State (ptr st') (rest st')
             ((i, take (ptr st' - ptr st) (rest st)) :: marks st'))).
Proof. reflexivity. Qed.

Lemma mt_Any_n n st k :
  mt (Any_n n) st k =
  if n <=? length (rest st)
  then k (State (ptr st + n) (drop n (rest st)) (marks st))
  else None.
Proof. reflexivity. Qed.

(** One match of the pattern: it consumes [c]; away from offset 0 it
    begins with the prefix; it stops where the look-ahead holds. *)
Lemma match_at_regex_inv P slot p l must_advance st :
  match_at (regex P slot) p l must_advance = Some st ->
  exists c, l = c ++ rest st /\ ptr st = p + length c /\
            (must_advance = true -> c <> []) /\
            (p <> 0 -> exists c', c = P ++ c') /\
            lookahead P (rest st).
Proof.
  unfold match_at, regex. rewrite mt_Seq, mt_Branch, mt_At_beginning.
  cbn [ptr]. intros H.
  assert (Hfin : forall st0,
    extends (State p l []) st0 ->
    mt (Seq (Group 2 Min_repeat_any)
            (Assert (Branch At_end (Seq (Literal P) slot)))) st0
       (success must_advance p) = Some st ->
    exists c, l = c ++ rest st /\ ptr st = p + length c /\
              (must_advance = true -> c <> []) /\ lookahead P (rest st)).
  { intros st0 E0 H0.
    apply regex_tail_inv in H0 as (st1 & E1 & H1 & Hla).
    apply success_inv in H1 as [-> Hadv].
    destruct (extends_trans _ _ _ E0 E1) as (c & Hc & Hp). simpl in Hc, Hp.
    exists c. repeat split; try assumption.
    intros Hma ->. simpl in Hp. apply (Hadv Hma). lia. }
  destruct (if p =? 0 then _ else None) as [o|] eqn:E1.
  - injection H as ->.
    destruct (Nat.eqb_spec p 0) as [->|]; [|discriminate].
    apply Hfin in E1 as (c & ? & ? & ? & ?); [|apply extends_refl].
    exists c. repeat split; try assumption. congruence.
  - clear E1. rewrite mt_Seq, mt_Literal in H. cbn [rest ptr marks] in H.
    destruct (strip P l) as [l1|] eqn:Es; [|discriminate].
    apply strip_Some in Es as ->.
    apply mt_extends in H as (st1 & (c1 & Hc1 & Hp1) & H).
    cbn [rest ptr] in Hc1, Hp1. subst l1.
    apply regex_tail_inv in H as (st2 & (c2 & Hc2 & Hp2) & H & Hla).
    apply success_inv in H as [-> Hadv].
    exists (P ++ c1 ++ c2). rewrite Hc2, <- !app_assoc.
    repeat split; try assumption.
    + rewrite Hp2, Hp1, !length_app. lia.
    + intros Hma E. apply (Hadv Hma). rewrite Hp2, Hp1.
      apply (f_equal length) in E. rewrite !length_app in E. simpl in E. lia.
    + intros _. eauto.
Qed.

(** * Counting matches against occurrences of the prefix *)

Lemma occurrences_suffix P c l :
  occurrences P l <= occurrences P (c ++ l).
Proof.
  induction c as [|x c IH]; simpl; [reflexivity|]. lia.
Qed.

Lemma occurrences_strip P c l :
  is_Some (strip P (c ++ l)) -> c <> [] ->
  S (occurrences P l) <= occurrences P (c ++ l).
Proof.
  intros [l' Hs] Hc. destruct c as [|x c]; [congruence|].
  change (occurrences P ((x :: c) ++ l))
    with ((if strip P ((x :: c) ++ l) is Some _ then 1 else 0)
          + occurrences P (c ++ l)).
  rewrite Hs. pose proof (occurrences_suffix P c l). lia.
Qed.

Lemma at_end_cases l : at_end l = true -> l = [] \/ l = [newline].
Proof.
  destruct l as [|x [|y l]]; simpl; auto; [|discriminate].
  intros H%N.eqb_eq. subst. auto.
Qed.

Section ScanBound.
Variables (P : list N) (slot : re).
Hypothesis P_nonempty : P <> [].

(** Away from offset 0 every match starts at an occurrence of the prefix.
    At offset 0 there is the leading match, and after an empty leading
    match one more that starts at offset 0 and swallows the occurrence
    found there by the look-ahead. *)
Lemma scan_bound :
  forall fuel p l must_advance ms,
  scan fuel (regex P slot) p l must_advance = Some ms ->
  (p <> 0 -> length ms <= occurrences P l) /\
  (p = 0 -> l <> [newline] ->
   (must_advance = true -> lookahead P l) ->
   length ms <= occurrences P l + (if must_advance then 0 else 1)).
Proof.
  induction fuel as [|fuel IH]; intros p l ma ms; simpl; [discriminate|].
  destruct (search _ p l ma) as [[start st]|] eqn:E;
    [|intros [= <-]; simpl; split; intros; lia].
  destruct (scan fuel _ _ _ _) as [ms'|] eqn:Es; [|discriminate].
  intros [= <-]. simpl.
  apply IH in Es as [IH1 IH2].
  apply search_inv in E as (c1 & l2 & ma' & -> & -> & E & Hma).
  apply match_at_regex_inv in E as (c & -> & Hp & Hadv & Hpre & Hla).
  assert (Hfar : p + length c1 <> 0 ->
                 S (length ms') <= occurrences P (c1 ++ c ++ rest st)).
  { intros Hne. destruct (Hpre Hne) as [c' ->].
    etransitivity; [|apply occurrences_suffix].
    assert (ptr st <> 0) as Hptr by lia.
    specialize (IH1 Hptr).
    etransitivity; [|apply occurrences_strip].
    - lia.
    - rewrite <- app_assoc, strip_app. eauto.
    - destruct P; [congruence|discriminate]. }
  split.
  - intros Hp0. apply Hfar. lia.
  - intros -> Hnl Hprev.
    destruct c1 as [|x c1]; [|specialize (Hfar ltac:(simpl; lia)); lia].
    simpl in *. specialize (Hma eq_refl). subst ma'.
    destruct c as [|y c].
    + simpl in *. destruct ma; [now exfalso; apply Hadv|].
      rewrite Hp, Nat.eqb_refl in IH2. specialize (IH2 eq_refl Hnl (fun _ => Hla)).
      lia.
    + assert (ptr st <> 0) as Hptr by (simpl in Hp; lia).
      specialize (IH1 Hptr).
      pose proof (occurrences_suffix P (y :: c) (rest st)) as Hsuf.
      destruct ma; [|lia].
      destruct (Hprev eq_refl) as [Hend|Hstrip].
      * apply at_end_cases in Hend as [?|?]; [discriminate|contradiction].
      * apply (occurrences_strip P (y :: c)) in Hstrip; [lia|discriminate].
Qed.

End ScanBound.

(** * Facts about the generator *)

Lemma bind_Returns {A B} (c : outcome A) (f : A -> outcome B) b :
  c ≫= f = Returns b -> exists a, c = Returns a /\ f a = Returns b.
Proof. destruct c; simpl; try discriminate. eauto. Qed.

Lemma bind_Raises {A B} (c : outcome A) (f : A -> outcome B) e :
  c ≫= f = Raises e ->
  c = Raises e \/ exists a, c = Returns a /\ f a = Raises e.
Proof. destruct c; simpl; try discriminate; [eauto|]. intros [= ->]. auto. Qed.

Lemma py_add_Raises a b e : py_add a b = Raises e -> e = TypeError.
Proof. destruct a, b; simpl; congruence. Qed.

Lemma py_add_same_type a b :
  type_of a = type_of b -> exists c, py_add a b = Returns c.
Proof. destruct a, b; simpl; try discriminate; eauto. Qed.

Lemma type_of_mk t l : type_of (mk t l) = t.
Proof. now destruct t. Qed.

Section Generator.
Variable str_lower : list N -> list N.

Lemma type_of_py_lower key : type_of (py_lower str_lower key) = type_of key.
Proof. now destruct key. Qed.

(** Every pair that comes out was a match that went in. *)
Lemma generate_length self :
  forall found key_count pairs,
  generate str_lower self key_count found = Returns pairs ->
  length pairs <= length found.
Proof.
  induction found as [|[key value] found IH]; intros kc pairs; simpl.
  - intros [= <-]. reflexivity.
  - destruct (empty self || truthy value).
    + intros H. apply bind_Returns in H as (k & _ & H).
      apply bind_Returns in H as (ps & H & [= <-]).
      apply IH in H. simpl. lia.
    + intros H. apply IH in H. lia.
Qed.

(** The generator raises nothing but [TypeError]. *)
Lemma generate_Raises self :
  forall found key_count e,
  generate str_lower self key_count found = Raises e -> e = TypeError.
Proof.
  induction found as [|[key value] found IH]; intros kc e; simpl.
  - discriminate.
  - destruct (empty self || truthy value); [|apply IH].
    intros H. apply bind_Raises in H as [H|(k & _ & H)].
    + destruct (number self); [|discriminate].
      destruct (zero self || _); [|discriminate].
      now apply py_add_Raises in H.
    + apply bind_Raises in H as [H|(ps & _ & H)]; [|discriminate].
      now apply IH in H.
Qed.

(** With keys, [first] and the suffix format all of one type, the
    generator runs to the end. *)
Lemma generate_total self ty :
  type_of (percent_d self) = ty ->
  (forall f, first self = Some f -> truthy f = true -> type_of f = ty) ->
  forall found key_count,
  Forall (fun kv => type_of kv.1 = ty) found ->
  exists pairs, generate str_lower self key_count found = Returns pairs.
Proof.
  intros Hfmt Hfirst.
  induction found as [|[key value] found IH]; intros kc Hty; simpl.
  - eauto.
  - apply Forall_cons in Hty as [Hkey Hty]. simpl in Hkey.
    destruct (empty self || truthy value); [|now apply IH].
    set (key1 := match first self with
                 | Some f => if truthy f && negb (truthy key) then f else key
                 | None => key
                 end).
    assert (type_of key1 = ty) as Hk1.
    { subst key1. destruct (first self) as [f|] eqn:Ef; [|assumption].
      destruct (truthy f) eqn:Et; simpl; [|assumption].
      destruct (negb (truthy key)); [|assumption]. now apply Hfirst. }
    set (key2 := if lower self then py_lower str_lower key1 else key1).
    assert (type_of key2 = ty) as Hk2.
    { subst key2. destruct (lower self); [|assumption].
      now rewrite type_of_py_lower. }
    assert (exists key3,
      (if number self then
         if zero self || (0 <? default 0 (kc !! key2))
         then py_add key2 (percent_d_mod (percent_d self)
                                         (default 0 (kc !! key2)))
         else Returns key2
       else Returns key2) = Returns key3) as [key3 ->].
    { destruct (number self); [|eauto].
      destruct (zero self || _); [|eauto].
      apply py_add_same_type. unfold percent_d_mod.
      rewrite type_of_mk. congruence. }
    simpl. destruct (IH (<[key3:=S (default 0 (kc !! key3))]> kc) Hty)
      as [pairs ->].
    simpl. eauto.
Qed.

End Generator.

(** * Where matches start and what their key slot holds *)

(** A property of single matches holds of every match of a scan. *)
Lemma scan_matches r (field : list N) (Q : nat -> state -> Prop) :
  (forall start must_advance st,
     start <= length field ->
     match_at r start (drop start field) must_advance = Some st ->
     Q start st) ->
  forall fuel p must_advance ms,
  p <= length field ->
  scan fuel r p (drop p field) must_advance = Some ms ->
  Forall (fun m => Q m.1 m.2) ms.
Proof.
  intros HQ. induction fuel as [|fuel IH]; intros p ma ms Hp; simpl;
    [discriminate|].
  destruct (search r p _ ma) as [[start st]|] eqn:E;
    [|intros [= <-]; constructor].
  destruct (scan fuel _ _ _ _) as [ms'|] eqn:Es; [|discriminate].
  intros [= <-].
  apply search_inv in E as (c1 & l2 & ma' & Hl & -> & E & _).
  assert (l2 = drop (p + length c1) field) as ->.
  { rewrite <- drop_drop, Hl, drop_app_length. reflexivity. }
  assert (p + length c1 <= length field) as Hstart.
  { apply (f_equal length) in Hl.
    rewrite length_drop, length_app in Hl. lia. }
  pose proof E as E'.
  apply match_at_extends in E' as (c & Hc & Hptr & _).
  constructor; [now apply (HQ _ ma')|].
  apply (IH (ptr st) (ptr st =? p + length c1)).
  - apply (f_equal length) in Hc.
    rewrite length_drop, length_app in Hc. lia.
  - replace (drop (ptr st) field) with (rest st); [assumption|].
    rewrite Hptr, <- drop_drop, Hc, drop_app_length. reflexivity.
Qed.

Lemma finditer_matches r (field : list N) (Q : nat -> state -> Prop) :
  (forall start must_advance st,
     start <= length field ->
     match_at r start (drop start field) must_advance = Some st ->
     Q start st) ->
  forall ms, finditer r field = Some ms -> Forall (fun m => Q m.1 m.2) ms.
Proof.
  intros HQ ms H. apply (scan_matches r field Q HQ (budget field) 0 false).
  - lia.
  - exact H.
Qed.

(** With a key slot of [L] units, the value group and the look-ahead add
    group 2 and nothing else. *)
Lemma regex_tail_marks P L st k out :
  mt (Seq (Group 2 Min_repeat_any)
          (Assert (Branch At_end (Seq (Literal P) (Any_n L))))) st k
  = Some out ->
  exists st' v, k st' = Some out /\ marks st' = (2, v) :: marks st.
Proof.
  cbn [mt]. intros H.
  apply min_repeat_inv in H as (c & l' & Hl & H). cbn [ptr rest marks] in H.
  destruct (at_end l').
  - eexists _, _. split; [exact H|reflexivity].
  - destruct (strip P l') as [l1|]; [|discriminate].
    destruct (L <=? length l1); [|discriminate].
    eexists _, _. split; [exact H|reflexivity].
Qed.

(** A match either has no group 1 (it began at [^]) or began with the
    prefix followed by a key slot of exactly [L] units. *)
Lemma match_at_key P L p l must_advance st :
  match_at (regex P (Any_n L)) p l must_advance = Some st ->
  (p = 0 /\ group 1 (marks st) = None) \/
  exists key t, group 1 (marks st) = Some key /\ length key = L /\
                l = P ++ key ++ t.
Proof.
  unfold match_at, regex. rewrite mt_Seq, mt_Branch, mt_At_beginning.
  cbn [ptr]. intros H.
  destruct (if p =? 0 then _ else None) as [o|] eqn:E1.
  - injection H as ->. destruct (Nat.eqb_spec p 0) as [->|]; [|discriminate].
    apply regex_tail_marks in E1 as (st' & v & H & Hm).
    apply success_inv in H as [-> _]. left. now rewrite Hm.
  - clear E1. rewrite mt_Seq, mt_Literal in H. cbn [rest ptr marks] in H.
    destruct (strip P l) as [l1|] eqn:Es; [|discriminate].
    apply strip_Some in Es as ->.
    rewrite mt_Group, mt_Any_n in H. cbn [rest ptr marks] in H.
    destruct (Nat.leb_spec L (length l1)) as [HL|]; [|discriminate].
    apply regex_tail_marks in H as (st' & v & H & Hm).
    apply success_inv in H as [-> _]. cbn [marks] in Hm. right.
    exists (take L l1), (drop L l1). rewrite Hm. simpl.
    replace (p + length P + L - (p + length P)) with L by lia.
    rewrite take_drop, length_take. repeat split. lia.
Qed.

(** * A field without any marker *)

Lemma min_repeat_last {A} (k : nat -> list N -> option A) :
  forall l p,
  (forall c l', l = c ++ l' -> l' <> [] -> k (p + length c) l' = None) ->
  min_repeat p l k = k (p + length l) [].
Proof.
  induction l as [|x l IH]; intros p H; simpl.
  - rewrite Nat.add_0_r. now destruct (k p []).
  - pose proof (H [] (x :: l) eq_refl ltac:(discriminate)) as H0.
    simpl in H0. rewrite Nat.add_0_r in H0. rewrite H0.
    rewrite IH, Nat.add_succ_r; [reflexivity|].
    intros c l' -> Hl'. specialize (H (x :: c) l' eq_refl Hl').
    simpl in H. now rewrite Nat.add_succ_r in H.
Qed.

Lemma occurrences_none P c l :
  occurrences P (c ++ l) = 0 -> strip P l = None.
Proof.
  intros H. pose proof (occurrences_suffix P c l) as Hle.
  destruct l; simpl in Hle; destruct (strip P _); try reflexivity; lia.
Qed.

Lemma at_end_inside c l :
  last (c ++ l) <> Some newline -> l <> [] -> at_end l = false.
Proof.
  intros Hlast Hl. destruct (at_end l) eqn:E; [|reflexivity].
  apply at_end_cases in E as [->| ->]; [congruence|].
  now rewrite last_snoc in Hlast.
Qed.

(** When the prefix occurs nowhere in a field that does not end in a
    newline, the scan finds one match: it starts at offset 0, has no key
    slot and its value is the whole field. *)
Lemma finditer_no_marker P slot (field : list N) :
  occurrences P field = 0 ->
  last field <> Some newline ->
  finditer (regex P slot) field
  = Some [(0, State (length field) [] [(2, field)])].
Proof.
  intros Hocc Hlast.
  assert (HP : strip P [] = None)
    by (apply (occurrences_none P field); now rewrite app_nil_r).
  assert (Hfirst : match_at (regex P slot) 0 field false
                   = Some (State (length field) [] [(2, field)])).
  { unfold match_at, regex.
    rewrite mt_Seq, mt_Branch, mt_At_beginning. cbn [ptr Nat.eqb].
    rewrite mt_Seq, mt_Group. cbn [mt ptr rest marks].
    rewrite min_repeat_last.
    - cbn [at_end Nat.add]. unfold success. cbn [andb].
      now rewrite Nat.sub_0_r, firstn_all.
    - intros c l' -> Hl'.
      rewrite (at_end_inside c l' Hlast Hl'), (occurrences_none P c l' Hocc).
      reflexivity. }
  assert (Hthen : search (regex P slot) (length field) []
                         (length field =? 0) = None).
  { cbn [search]. unfold match_at, regex.
    rewrite mt_Seq, mt_Branch, mt_At_beginning. cbn [ptr].
    rewrite (mt_Seq (Literal P)), mt_Literal. cbn [rest]. rewrite HP.
    destruct (length field =? 0) eqn:E; [|reflexivity].
    cbn [mt ptr rest marks min_repeat at_end].
    unfold success. cbn [ptr]. now rewrite (Nat.eqb_refl (length field)). }
  unfold finditer, budget.
  replace (2 * length field + 2) with (S (S (2 * length field))) by lia.
  cbn [scan]. rewrite (search_here _ _ _ _ _ Hfirst). cbn [ptr rest].
  now rewrite Hthen.
Qed.

Lemma mk_units (v : pyval) : mk (type_of v) (units v) = v.
Proof. now destruct v. Qed.

(** * The documented examples

    The two examples of the class docstring, and two rows of the test
    table, run on the model. *)

Example docstring_dict (str_lower : list N -> list N) :
  (self ← init (B_ "^") 1 false (Some (B_ "_")) false true false;
   call str_lower self (B_ "data^ttext^len^tTrail"))
  = Returns [(B_ "_", B_ "data"); (B_ "t", B_ "text");
             (B_ "l", B_ "en"); (B_ "t1", B_ "Trail")].
Proof. vm_compute. reflexivity. Qed.

Example docstring_list (str_lower : list N -> list N) :
  (self ← init (S_ "#F#") 1 false None false false false;
   call str_lower self (S_ "data#F#ttext#F#len#F#tTrail"))
  = Returns [(S_ "", S_ "data"); (S_ "t", S_ "text");
             (S_ "l", S_ "en"); (S_ "t", S_ "Trail")].
Proof. vm_compute. reflexivity. Qed.

Example test_non_subfield_prefix (str_lower : list N -> list N) :
  (self ← init (S_ "a") 1 false None false true false;
   call str_lower self (S_ "data"))
  = Returns [(S_ "", S_ "d"); (S_ "t", S_ "a")].
Proof. vm_compute. reflexivity. Qed.

Example test_length_2_keep_empty (str_lower : list N -> list N) :
  (self ← init (S_ "a") 2 false None true true false;
   call str_lower self (S_ "data"))
  = Returns [(S_ "", S_ "d"); (S_ "ta", S_ "")].
Proof. vm_compute. reflexivity. Qed.

(** * The claims *)

(** C1 (numbering of repeated keys). The claim: the successive retained
    occurrences of a key get the suffixes none, 1, 2, ... On the row
    [length_0_keep_empty] of the test table (prefix [a], length 0, empty
    pairs kept, field [data]) the empty key occurs three times and the
    expected keys are the empty key, [1] and [2]. The generator yields
    the empty key, [1] and [1] again: after a suffix has been appended,
    the counter that is incremented is the one of the suffixed key, so
    the counter of the key itself stays at 1. *)
Theorem C1_third_occurrence_repeats_suffix (str_lower : list N -> list N) :
  (self ← init (S_ "a") 0 false None true true false;
   call str_lower self (S_ "data"))
  = Returns [(S_ "", S_ "d"); (S_ "1", S_ "t"); (S_ "1", S_ "")].
Proof. vm_compute. reflexivity. Qed.

(** C2 (first only for the leading segment). The claim, with the
    docstring ([first] is the key to be used for the leading value): a
    segment after segment 0 with an empty key slot keeps the empty key.
    With prefix [a], length 0, first [_] and numbering off, the field
    [data] has segment 0 with value [d] and, after the first marker, a
    segment with an empty key slot and value [t]; both come out under
    the key [_], because the substitution tests only that the key is
    empty. The same happens on the row [first_empty_no_number] of the
    test table (prefix [i], first [1], empty pairs kept, field
    [ioisis test]), which expects [first] on the leading pair only: the
    second pair comes out under [1] as well. *)
Theorem C2_later_pair_receives_first (str_lower : list N -> list N) :
  (self ← init (S_ "a") 0 false (Some (S_ "_")) false false false;
   call str_lower self (S_ "data"))
  = Returns [(S_ "_", S_ "d"); (S_ "_", S_ "t")]
  /\ (self ← init (S_ "i") 1 false (Some (S_ "1")) true false false;
      call str_lower self (S_ "ioisis test"))
     = Returns [(S_ "1", S_ ""); (S_ "1", S_ "io");
                (S_ "s", S_ ""); (S_ "s", S_ " test")].
Proof. split; vm_compute; reflexivity. Qed.

(** C3, as stated, fails: construction with an empty marker, a negative
    key length and a [first] of the other type returns a parser. *)
Lemma C3_counterexample :
  exists self,
    init (S_ "") (-1) false (Some (B_ "_")) false true false = Returns self.
Proof. eexists. vm_compute. reflexivity. Qed.

(** C3 (errors of construction), amended. Construction validates
    nothing: for every marker, every key length below the repetition
    limit of the pattern compiler and every [first], it returns a parser
    that holds the arguments as given; and whatever a call on a parser
    raises is a [TypeError]. *)
Theorem C3_construction_validates_nothing
        (prefix : pyval) (length : Z) (lower : bool) (first : option pyval)
        (empty number zero : bool) :
  (length < MAXREPEAT)%Z ->
  exists slot,
    init prefix length lower first empty number zero
    = Returns (Build lower first empty number zero
                     (mk (type_of prefix) (codes "%d"))
                     (Pattern (type_of prefix) (regex (units prefix) slot)))
    /\ forall str_lower self field e,
         call str_lower self field = Raises e -> e = TypeError.
Proof.
  intros Hlen. unfold init, key_slot.
  assert (Hcall : forall str_lower self field e,
             call str_lower self field = Raises e -> e = TypeError).
  { intros str_lower self field e. unfold call, pattern_findall. intros H.
    apply bind_Raises in H as [H|(found & _ & H)].
    - destruct (pytype_eqb _ _); [|congruence].
      destruct (findall _ _); discriminate.
    - now apply generate_Raises in H. }
  destruct (length <? 0)%Z; [eexists; split; [reflexivity|exact Hcall]|].
  destruct (Z.leb_spec MAXREPEAT length); [lia|].
  eexists; split; [reflexivity|exact Hcall].
Qed.

Lemma C3_witness :
  (-1 < MAXREPEAT)%Z /\
  exists slot,
    init (S_ "") (-1) false (Some (B_ "_")) false true false
    = Returns (Build false (Some (B_ "_")) false true false
                     (mk TStr (codes "%d"))
                     (Pattern TStr (regex [] slot)))
    /\ forall str_lower self field e,
         call str_lower self field = Raises e -> e = TypeError.
Proof.
  split; [reflexivity|].
  apply (C3_construction_validates_nothing
           (S_ "") (-1) false (Some (B_ "_")) false true false).
  reflexivity.
Defined.

(** C4 (round trip). The claim: with empty pairs kept and no
    lower-casing, the pairs rebuild the field. On the row
    [single_nonempty_subfield_empty_first] of the test table (prefix
    [d], empty pairs kept, field [data]) the expected pairs are an empty
    leading pair and the key [a] with value [ta]. The code instead
    follows the empty leading match with a second match from offset 0
    that swallows the marker, and the pairs rebuild [d1data]; whatever
    is put for the key of the second pair, the rebuilt text is longer
    than the field. *)
Theorem C4_pairs_do_not_rebuild_field (str_lower : list N -> list N) :
  (self ← init (S_ "d") 1 false None true true false;
   call str_lower self (S_ "data"))
  = Returns [(S_ "", S_ ""); (S_ "1", S_ "data")]
  /\ resynth (codes "d") 1 [(S_ "", S_ ""); (S_ "1", S_ "data")]
     = Some (codes "d1data")
  /\ forall key : list N,
       units (S_ "") ++ codes "d" ++ key ++ units (S_ "data")
       <> units (S_ "data").
Proof.
  split; [vm_compute; reflexivity|]. split; [vm_compute; reflexivity|].
  intros key H. apply (f_equal List.length) in H.
  rewrite !length_app in H. cbn in H. lia.
Qed.

(** C5, as stated, fails: on the row [length_2_keep_empty] of the test
    table (prefix [a], length 2, field [data]) empty pairs are kept,
    the marker occurs twice, and two pairs come out, one fewer than the
    bound of three: the second occurrence lies inside the key slot
    [ta]. *)
Lemma C5_counterexample :
  exists self pairs,
    init (S_ "a") 2 false None true true false = Returns self /\
    call ascii_lower self (S_ "data") = Returns pairs /\
    empty self = true /\
    length pairs < occurrences (codes "a") (codes "data") + 1.
Proof.
  eexists _, _. split; [reflexivity|]. split; [vm_compute; reflexivity|].
  split; [reflexivity|]. vm_compute. lia.
Qed.

(** C5 (number of pairs), amended. For a non-empty marker and a field
    other than the single newline, the number of pairs is at most the
    number of offsets at which the marker occurs, plus one. *)
Theorem C5_pairs_at_most_occurrences_plus_one
        (str_lower : list N -> list N)
        (prefix : pyval) (length : Z) (lower : bool) (first : option pyval)
        (empty number zero : bool) (field : pyval)
        (pairs : list (pyval * pyval)) :
  units prefix <> [] ->
  units field <> [newline] ->
  (self ← init prefix length lower first empty number zero;
   call str_lower self field) = Returns pairs ->
  List.length pairs <= occurrences (units prefix) (units field) + 1.
Proof.
  intros Hprefix Hfield H.
  apply bind_Returns in H as (self & Hinit & H).
  unfold init in Hinit.
  apply bind_Returns in Hinit as (slot & _ & [= <-]).
  unfold call in H. apply bind_Returns in H as (found & Hfound & H).
  apply generate_length in H.
  unfold pattern_findall in Hfound. cbn [subfields_regex] in Hfound.
  destruct (pytype_eqb _ _); [|discriminate].
  unfold findall in Hfound. cbn [pattern_re] in Hfound.
  destruct (finditer _ _) as [ms|] eqn:Hms; [|discriminate].
  injection Hfound as <-. rewrite !length_map in H.
  apply (scan_bound _ _ Hprefix) in Hms as [_ Hms].
  specialize (Hms eq_refl Hfield ltac:(discriminate)). simpl in Hms. lia.
Qed.

Lemma C5_witness :
  units (S_ "^") <> [] /\ units (S_ "data^ttext^len^tTrail") <> [newline] /\
  (self ← init (S_ "^") 1 false None false true false;
   call ascii_lower self (S_ "data^ttext^len^tTrail"))
  = Returns [(S_ "", S_ "data"); (S_ "t", S_ "text");
             (S_ "l", S_ "en"); (S_ "t1", S_ "Trail")] /\
  4 <= occurrences (units (S_ "^")) (units (S_ "data^ttext^len^tTrail")) + 1.
Proof.
  assert (H1 : units (S_ "^") <> []) by (vm_compute; discriminate).
  assert (H2 : units (S_ "data^ttext^len^tTrail") <> [newline])
    by (vm_compute; discriminate).
  assert (H3 : (self ← init (S_ "^") 1 false None false true false;
                call ascii_lower self (S_ "data^ttext^len^tTrail"))
               = Returns [(S_ "", S_ "data"); (S_ "t", S_ "text");
                          (S_ "l", S_ "en"); (S_ "t1", S_ "Trail")])
    by (vm_compute; reflexivity).
  repeat split; try assumption.
  exact (C5_pairs_at_most_occurrences_plus_one
           ascii_lower (S_ "^") 1 false None false true false
           (S_ "data^ttext^len^tTrail") _ H1 H2 H3).
Defined.

(** C6, as stated, fails: on the row [non_subfield_prefix] of the test
    table (prefix [a], length 1, field [data]), with empty pairs kept,
    the marker at offset 3 has no unit after it; no match starts there
    (the matches start at offsets 0 and 1) and the marker ends up inside
    the value of the pair keyed [t]. *)
Lemma C6_counterexample :
  exists self ms,
    init (S_ "a") 1 false None true false false = Returns self /\
    strip (codes "a") (drop 3 (codes "data")) = Some [] /\
    finditer (pattern_re (subfields_regex self)) (codes "data") = Some ms /\
    map fst ms = [0; 1] /\
    call ascii_lower self (S_ "data")
    = Returns [(S_ "", S_ "d"); (S_ "t", S_ "a")].
Proof.
  eexists _, _. split; [reflexivity|]. split; [reflexivity|].
  split; [vm_compute; reflexivity|]. split; vm_compute; reflexivity.
Qed.

(** C6 (short key slots), amended. For a key length that is not
    negative, the scan of a field finishes and every match either is
    the match at offset 0 without key slot or begins at a marker
    followed, in the field, by a key slot of exactly [length] units. So
    no key slot is ever shorter than [length], and a marker occurrence
    with fewer than [length] units after it starts no segment: no match
    begins there, unless it is at offset 0, where the match without key
    slot begins. *)
Theorem C6_key_slot_has_full_length
        (prefix : pyval) (length : Z) (lower : bool) (first : option pyval)
        (empty number zero : bool) (self : t) (field : pyval) :
  (0 <= length)%Z ->
  init prefix length lower first empty number zero = Returns self ->
  exists ms,
    finditer (pattern_re (subfields_regex self)) (units field) = Some ms /\
    Forall (fun m =>
              (m.1 = 0 /\ group 1 (marks m.2) = None) \/
              exists key t,
                group 1 (marks m.2) = Some key /\
                List.length key = Z.to_nat length /\
                drop m.1 (units field) = units prefix ++ key ++ t) ms /\
    forall (i : nat) (after : list N),
      strip (units prefix) (drop i (units field)) = Some after ->
      List.length after < Z.to_nat length ->
      forall st, (i, st) ∈ ms -> i = 0 /\ group 1 (marks st) = None.
Proof.
  intros Hlen Hinit. unfold init, key_slot in Hinit.
  destruct (Z.ltb_spec length 0) as [Hneg|_]; [lia|].
  destruct (MAXREPEAT <=? length)%Z; [discriminate|].
  injection Hinit as <-. cbn [subfields_regex pattern_re].
  destruct (finditer_total (regex (units prefix) (Any_n (Z.to_nat length)))
                           (units field)) as [ms Hms].
  exists ms. split; [exact Hms|].
  assert (Hall :
    Forall (fun m =>
              (m.1 = 0 /\ group 1 (marks m.2) = None) \/
              exists key t,
                group 1 (marks m.2) = Some key /\
                List.length key = Z.to_nat length /\
                drop m.1 (units field) = units prefix ++ key ++ t) ms).
  { apply (finditer_matches
             (regex (units prefix) (Any_n (Z.to_nat length))) (units field)
             (fun start st =>
                (start = 0 /\ group 1 (marks st) = None) \/
                exists key t,
                  group 1 (marks st) = Some key /\
                  List.length key = Z.to_nat length /\
                  drop start (units field) = units prefix ++ key ++ t));
      [|exact Hms].
    intros start ma st _ Hm. now apply match_at_key in Hm. }
  split; [exact Hall|].
  intros i after Hstrip Hshort st Hin.
  rewrite Forall_forall in Hall. specialize (Hall _ Hin). cbn [fst snd] in Hall.
  destruct Hall as [Hlead|(key & t & _ & Hkey & Hdrop)]; [exact Hlead|].
  exfalso. rewrite Hdrop, strip_app in Hstrip. injection Hstrip as <-.
  rewrite length_app in Hshort. lia.
Qed.

Lemma C6_witness :
  (0 <= 2)%Z /\
  exists self,
    init (S_ "a") 2 false None true true false = Returns self /\
    exists ms,
      finditer (pattern_re (subfields_regex self)) (units (S_ "data"))
      = Some ms /\
      Forall (fun m =>
                (m.1 = 0 /\ group 1 (marks m.2) = None) \/
                exists key t,
                  group 1 (marks m.2) = Some key /\
                  List.length key = Z.to_nat 2 /\
                  drop m.1 (units (S_ "data"))
                  = units (S_ "a") ++ key ++ t) ms /\
      forall (i : nat) (after : list N),
        strip (units (S_ "a")) (drop i (units (S_ "data"))) = Some after ->
        List.length after < Z.to_nat 2 ->
        forall st, (i, st) ∈ ms -> i = 0 /\ group 1 (marks st) = None.
Proof.
  split; [discriminate|].
  eexists. split; [reflexivity|].
  apply (C6_key_slot_has_full_length
           (S_ "a") 2 false None true true false _ (S_ "data"));
    [discriminate|reflexivity].
Defined.

Lemma pytype_eqb_refl ty : pytype_eqb ty ty = true.
Proof. now destruct ty. Qed.

(** C7, as stated, fails: construction accepts a [bytes] first for a
    [str] marker, and the call then raises a [TypeError] when the [str]
    suffix is appended to the [bytes] key. *)
Lemma C7_counterexample :
  exists self,
    init (S_ "^") 1 false (Some (B_ "_")) false true true = Returns self /\
    call ascii_lower self (S_ "x") = Raises TypeError.
Proof. eexists. split; [reflexivity|]. vm_compute. reflexivity. Qed.

(** C7 (tokenization does not fail), amended. For every parser that
    construction returns, with a [first] that is unset, empty or of the
    type of the marker, and every field of the type of the marker, the
    call finishes and returns a list of pairs. When the marker occurs
    nowhere in a field that does not end in a newline, the scan finds a
    single match, without key slot, whose value is the whole field. *)
Theorem C7_call_returns
        (str_lower : list N -> list N)
        (prefix : pyval) (length : Z) (lower : bool) (first : option pyval)
        (empty number zero : bool) (self : t) (field : pyval) :
  type_of field = type_of prefix ->
  (forall f, first = Some f -> truthy f = true ->
             type_of f = type_of prefix) ->
  init prefix length lower first empty number zero = Returns self ->
  (exists pairs, call str_lower self field = Returns pairs) /\
  (occurrences (units prefix) (units field) = 0 ->
   last (units field) <> Some newline ->
   pattern_findall (subfields_regex self) field
   = Returns [(mk (type_of field) [], field)]).
Proof.
  intros Hfield Hfirst Hinit. unfold init in Hinit.
  apply bind_Returns in Hinit as (slot & _ & [= <-]).
  unfold call, pattern_findall. cbn [subfields_regex pattern_type pattern_re].
  rewrite Hfield, pytype_eqb_refl. split.
  - destruct (findall_total (regex (units prefix) slot) (units field))
      as [found ->].
    cbn [mbind outcome_bind].
    apply (generate_total str_lower _ (type_of prefix)).
    + apply type_of_mk.
    + exact Hfirst.
    + apply Forall_map, Forall_forall. intros kv _. apply type_of_mk.
  - intros Hocc Hlast. unfold findall.
    rewrite (finditer_no_marker _ slot _ Hocc Hlast).
    cbn [map snd getslice marks group Nat.eqb default fst].
    now rewrite <- Hfield, mk_units.
Qed.

Lemma C7_witness :
  type_of (S_ "data") = type_of (S_ "^") /\
  (forall f, Some (S_ "_") = Some f -> truthy f = true ->
             type_of f = type_of (S_ "^")) /\
  exists self,
    init (S_ "^") 1 false (Some (S_ "_")) false true true = Returns self /\
    (exists pairs, call ascii_lower self (S_ "data") = Returns pairs) /\
    occurrences (units (S_ "^")) (units (S_ "data")) = 0 /\
    last (units (S_ "data")) <> Some newline /\
    pattern_findall (subfields_regex self) (S_ "data")
    = Returns [(mk (type_of (S_ "data")) [], S_ "data")].
Proof.
  assert (H1 : type_of (S_ "data") = type_of (S_ "^")) by reflexivity.
  assert (H2 : forall f, Some (S_ "_") = Some f -> truthy f = true ->
                         type_of f = type_of (S_ "^"))
    by (intros f [= <-] _; reflexivity).
  assert (H3 : occurrences (units (S_ "^")) (units (S_ "data")) = 0)
    by reflexivity.
  assert (H4 : last (units (S_ "data")) <> Some newline)
    by (vm_compute; discriminate).
  split; [exact H1|]. split; [exact H2|].
  eexists. split; [reflexivity|].
  destruct (C7_call_returns ascii_lower (S_ "^") 1 false (Some (S_ "_"))
                            false true true _ (S_ "data") H1 H2 eq_refl)
    as [Hcall Hwhole].
  split; [exact Hcall|]. split; [exact H3|]. split; [exact H4|].
  exact (Hwhole H3 H4).
Defined.

(** The generator on the store does to the counter behind its
    reference what the generator does to its counter, and touches no
    other counter. *)
Lemma generate_in_spec (str_lower : list N -> list N) (self : t)
      (key_count : nat) :
  forall found store counter,
  store !! key_count = Some counter ->
  exists counter',
    generate_in str_lower self key_count found store
    = (generate str_lower self counter found,
       <[key_count := counter']> store).
Proof.
  induction found as [|[key value] found IH]; intros store counter Href.
  - exists counter. cbn [generate_in generate].
    now rewrite list_insert_id.
  - cbn [generate_in generate].
    destruct (empty self || truthy value); [|now apply IH].
    set (key1 := match first self with
                 | Some f => if truthy f && negb (truthy key) then f else key
                 | None => key
                 end).
    set (key2 := if lower self then py_lower str_lower key1 else key1).
    unfold Counter_getitem. rewrite Href.
    destruct (if number self then _ else _) as [key3|e|].
    + unfold Counter_increment. rewrite Href.
      destruct (IH (<[key_count := <[key3 := S (default 0 (counter !! key3))]>
                                     counter]> store)
                   (<[key3 := S (default 0 (counter !! key3))]> counter))
        as [counter' ->].
      { apply list_lookup_insert_eq. now apply lookup_lt_Some in Href. }
      exists counter'. cbn [mbind outcome_bind].
      now rewrite list_insert_insert_eq.
    + exists counter. now rewrite list_insert_id.
    + exists counter. now rewrite list_insert_id.
Qed.

(** A call on the store gives what [call] gives and leaves every
    counter that was in the store as it was. *)
Lemma call_in_spec (str_lower : list N -> list N) (self : t)
      (field : pyval) (store : list (gmap pyval nat)) :
  exists counter,
    call_in str_lower self field store
    = (call str_lower self field, store ++ [counter]).
Proof.
  unfold call_in, call, new_Counter.
  destruct (pattern_findall _ field) as [found| |];
    [|exists ∅; reflexivity..].
  destruct (generate_in_spec str_lower self (length store) found
                             (store ++ [∅]) ∅) as [counter ->].
  { now rewrite lookup_app_r, Nat.sub_diag by lia. }
  exists counter. cbn [mbind outcome_bind]. f_equal.
  rewrite insert_app_r_alt, Nat.sub_diag by lia. reflexivity.
Qed.

(** The counter of a call stays in the store with what it has counted. *)
Example counter_left_in_the_store :
  call_in ascii_lower
          (Build false None false true false (S_ "%d")
                 (Pattern TStr (regex (codes "^") (Any_n 1))))
          (S_ "x^ay^az") []
  = (Returns [(S_ "", S_ "x"); (S_ "a", S_ "y"); (S_ "a1", S_ "z")],
     [{[ S_ "" := 1; S_ "a" := 1; S_ "a1" := 1 ]}]).
Proof. vm_compute. reflexivity. Qed.

(** C8 (two runs agree). Two calls one after the other on the same
    parser and the same field, the second on the store that the first
    has left: the second gives what the first gave, pairs or exception,
    although the counter of the first is still in the store with its
    counts, because each call allocates its own counter, empty, and
    reads and increments no other. Every counter that was in the store
    before is in it unchanged after both calls. *)
Theorem C8_second_call_starts_afresh
        (str_lower : list N -> list N) (self : t) (field : pyval)
        (store : list (gmap pyval nat)) :
  let first_run := call_in str_lower self field store in
  let second_run := call_in str_lower self field first_run.2 in
  second_run.1 = first_run.1 /\
  first_run.1 = call str_lower self field /\
  forall ref counter,
    store !! ref = Some counter ->
    first_run.2 !! ref = Some counter /\ second_run.2 !! ref = Some counter.
Proof.
  cbn zeta.
  destruct (call_in_spec str_lower self field store) as [c1 ->]. cbn [fst snd].
  destruct (call_in_spec str_lower self field (store ++ [c1])) as [c2 ->].
  cbn [fst snd]. split; [reflexivity|]. split; [reflexivity|].
  intros ref counter Href. split.
  - now apply lookup_app_l_Some.
  - now do 2 apply lookup_app_l_Some.
Qed.

(** C9 (newlines are ordinary units). The claim: a newline in the
    content is a unit like any other. With prefix [^] and empty pairs
    kept, the field [abc] followed by a newline comes out as the single
    value [abc], without the newline, while [abc.] comes out whole: [$]
    in the look-ahead also holds just before a newline that ends the
    field, and nothing matches the newline left over. *)
Theorem C9_final_newline_is_lost (str_lower : list N -> list N) :
  (self ← init (S_ "^") 1 false None true true false;
   call str_lower self (Str (codes "abc" ++ [newline])))
  = Returns [(S_ "", S_ "abc")]
  /\ (self ← init (S_ "^") 1 false None true true false;
      call str_lower self (S_ "abc."))
     = Returns [(S_ "", S_ "abc.")].
Proof. split; vm_compute; reflexivity. Qed.

Lemma generate_first_empty (str_lower : list N -> list N)
      lower ty empty number zero fmt pat :
  forall found key_count,
  generate str_lower
           (Build lower (Some (mk ty [])) empty number zero fmt pat)
           key_count found
  = generate str_lower (Build lower None empty number zero fmt pat)
             key_count found.
Proof.
  induction found as [|[key value] found IH]; intros kc; [reflexivity|].
  cbn [generate SubfieldParser.lower SubfieldParser.first
       SubfieldParser.empty SubfieldParser.number SubfieldParser.zero
       SubfieldParser.percent_d].
  replace (truthy (mk ty [])) with false by now destruct ty.
  cbn [andb]. destruct (empty || truthy value); [|apply IH].
  destruct (if number then _ else _); try reflexivity.
  cbn [mbind outcome_bind]. now rewrite IH.
Qed.

(** C10 (an empty first is as no first). A parser built with [first]
    set to the empty [str] or the empty [bytes] gives, on every field,
    what the parser built with [first] unset gives. *)
Theorem C10_empty_first_is_unset
        (str_lower : list N -> list N)
        (prefix : pyval) (length : Z) (lower : bool) (ty : pytype)
        (empty number zero : bool) (field : pyval) :
  (self ← init prefix length lower (Some (mk ty [])) empty number zero;
   call str_lower self field)
  = (self ← init prefix length lower None empty number zero;
     call str_lower self field).
Proof.
  unfold init. destruct (key_slot length) as [slot| |]; try reflexivity.
  cbn [mbind outcome_bind]. unfold call. cbn [subfields_regex].
  destruct (pattern_findall _ field) as [found| |]; try reflexivity.
  cbn [mbind outcome_bind]. apply generate_first_empty.
Qed.

(** * Further properties of the generator *)

Section GeneratorLaws.
Variable str_lower : list N -> list N.

(** X1. The values that come out are the values of the matches, in the
    order of the matches, without those that are empty when empty pairs
    are not kept: no value is altered and, with [empty] off, no pair
    with an empty value is ever emitted. *)
Theorem X1_values_are_the_retained_match_values
        (self : t) (field : pyval) (found pairs : list (pyval * pyval)) :
  pattern_findall (subfields_regex self) field = Returns found ->
  call str_lower self field = Returns pairs ->
  map snd pairs
  = filter (fun value => empty self || truthy value) (map snd found).
Proof.
  intros Hfound. unfold call. rewrite Hfound. cbn [mbind outcome_bind].
  generalize (∅ : gmap pyval nat). revert pairs. clear Hfound.
  induction found as [|[key value] found IH]; intros pairs kc;
    cbn [generate map snd].
  - intros [= <-]. reflexivity.
  - rewrite filter_cons. cbn [snd].
    destruct (empty self || truthy value) eqn:E.
    + rewrite decide_True by exact I.
      intros H. apply bind_Returns in H as (k & _ & H).
      apply bind_Returns in H as (ps & H & [= <-]).
      cbn [map snd]. f_equal. now apply IH in H.
    + rewrite decide_False by (intros []).
      apply IH.
Qed.

(** X2. A match dropped for its empty value leaves no trace: the
    generator gives on the matches what it gives on the matches that it
    keeps, whatever the counter holds, so a dropped occurrence of a key
    advances no counter. *)
Theorem X2_dropped_matches_leave_no_trace
        (self : t) (key_count : gmap pyval nat)
        (found : list (pyval * pyval)) :
  generate str_lower self key_count found
  = generate str_lower self key_count
             (filter (fun kv => empty self || truthy kv.2) found).
Proof.
  revert key_count.
  induction found as [|[key value] found IH]; intros kc; [reflexivity|].
  rewrite filter_cons. cbn [snd].
  destruct (empty self || truthy value) eqn:E.
  - rewrite decide_True by exact I.
    cbn [generate]. rewrite E.
    destruct (if number self then _ else _); try reflexivity.
    cbn [mbind outcome_bind]. now rewrite IH.
  - rewrite decide_False by (intros []).
    cbn [generate]. rewrite E. apply IH.
Qed.

Lemma generate_without_number
      (self : t) (key_count : gmap pyval nat)
      (found : list (pyval * pyval)) :
  number self = false ->
  generate str_lower self key_count found
  = Returns
      (map (fun kv =>
              let key := match first self with
                         | Some f =>
                             if truthy f && negb (truthy kv.1) then f
                             else kv.1
                         | None => kv.1
                         end in
              (if lower self then py_lower str_lower key else key, kv.2))
           (filter (fun kv => empty self || truthy kv.2) found)).
Proof.
  intros Hnumber. revert key_count.
  induction found as [|[key value] found IH]; intros kc; [reflexivity|].
  rewrite filter_cons. cbn [generate snd]. rewrite Hnumber.
  destruct (empty self || truthy value) eqn:E.
  - rewrite decide_True by exact I.
    cbn [mbind outcome_bind map fst snd]. now rewrite IH.
  - rewrite decide_False by (intros []).
    apply IH.
Qed.

(** X3. With numbering off nothing is appended to a key, so once the
    scan has run the call cannot raise, whatever the type of [first]:
    the pairs are the kept matches, each with its key replaced by a
    non-empty [first] when its key slot is empty, and lower-cased when
    [lower] is on. *)
Theorem X3_without_numbering_keys_are_not_suffixed
        (self : t) (field : pyval) :
  number self = false ->
  call str_lower self field
  = (found ← pattern_findall (subfields_regex self) field;
     Returns
       (map (fun kv =>
               let key := match first self with
                          | Some f =>
                              if truthy f && negb (truthy kv.1) then f
                              else kv.1
                          | None => kv.1
                          end in
               (if lower self then py_lower str_lower key else key, kv.2))
            (filter (fun kv => empty self || truthy kv.2) found))).
Proof.
  intros Hnumber. unfold call.
  destruct (pattern_findall _ field) as [found| |]; try reflexivity.
  cbn [mbind outcome_bind]. now apply generate_without_number.
Qed.

(** X4. [zero] has no effect when [number] is off: the two parsers that
    differ only in [zero] give the same outcome on every field. *)
Theorem X4_zero_has_no_effect_without_number
        (lower : bool) (first : option pyval) (empty zero : bool)
        (fmt : pyval) (pat : pattern) (field : pyval) :
  call str_lower (Build lower first empty false zero fmt pat) field
  = call str_lower (Build lower first empty false false fmt pat) field.
Proof.
  unfold call. cbn [subfields_regex].
  destruct (pattern_findall pat field) as [found| |]; try reflexivity.
  cbn [mbind outcome_bind].
  now rewrite !generate_without_number.
Qed.

(** The counter of a key, while the generator runs, is what it was at
    the start plus the number of pairs emitted so far under that key. *)
Lemma generate_numbering (self : t) :
  number self = true ->
  forall found key_count pairs,
  generate str_lower self key_count found = Returns pairs ->
  Forall2 (fun kv pair => pair.2 = kv.2)
          (filter (fun kv => empty self || truthy kv.2) found) pairs /\
  forall i kv pair,
    filter (fun kv => empty self || truthy kv.2) found !! i = Some kv ->
    pairs !! i = Some pair ->
    let key := match first self with
               | Some f =>
                   if truthy f && negb (truthy kv.1) then f else kv.1
               | None => kv.1
               end in
    let key := if lower self then py_lower str_lower key else key in
    let suffix_int :=
      default 0 (key_count !! key)
      + length (filter (fun q => q.1 = key) (take i pairs)) in
    (if zero self || (0 <? suffix_int)
     then py_add key (percent_d_mod (percent_d self) suffix_int)
     else Returns key) = Returns pair.1.
Proof.
  intros Hnumber.
  induction found as [|[key value] found IH]; intros kc pairs.
  - cbn [generate]. intros [= <-]. split; [constructor|].
    intros i kv pair H. now rewrite filter_nil, lookup_nil in H.
  - cbn [generate]. rewrite filter_cons. cbn [snd]. rewrite Hnumber.
    destruct (empty self || truthy value) eqn:E.
    + rewrite decide_True by exact I.
      set (key1 := match first self with
                   | Some f => if truthy f && negb (truthy key) then f else key
                   | None => key
                   end).
      set (key2 := if lower self then py_lower str_lower key1 else key1).
      intros H. apply bind_Returns in H as (key3 & Hkey3 & H).
      apply bind_Returns in H as (ps & H & [= <-]).
      apply IH in H as [Hvalues Hkeys]. split.
      * constructor; [reflexivity|exact Hvalues].
      * intros [|i] kv pair.
        -- cbn [lookup list_lookup]. intros [= <-] [= <-].
           cbn [fst snd take filter length]. rewrite filter_nil.
           cbn [length]. fold key1. fold key2.
           now rewrite Nat.add_0_r.
        -- rewrite !lookup_cons. intros Hkv Hpair.
           specialize (Hkeys i kv pair Hkv Hpair). cbn zeta in Hkeys.
           cbn zeta. rewrite firstn_cons, filter_cons. cbn [fst].
           match type of Hkeys with
           | context [default 0 (_ !! ?k)] => set (base := k) in *
           end.
           destruct (decide (key3 = base)) as [->|Hne].
           ++ rewrite lookup_insert_eq in Hkeys. cbn [default] in Hkeys.
              cbn [length].
              replace (default 0 (kc !! base)
                       + S (length (filter (fun q => q.1 = base) (take i ps))))
                with (S (default 0 (kc !! base))
                      + length (filter (fun q => q.1 = base) (take i ps)))
                by lia.
              exact Hkeys.
           ++ rewrite lookup_insert_ne in Hkeys by exact Hne. exact Hkeys.
    + rewrite decide_False by (intros []). apply IH.
Qed.

(** X5. How keys are numbered. With [number] on, the number appended to
    a key is the number of pairs emitted earlier in the same call whose
    emitted key equals this key as it stands after substitution and
    lower-casing; it is appended when [zero] is on or the number is not
    0, and otherwise the key is emitted as it stands. *)
Theorem X5_suffix_counts_earlier_emitted_keys
        (self : t) (field : pyval) (found pairs : list (pyval * pyval))
        (i : nat) (kv pair : pyval * pyval) :
  number self = true ->
  pattern_findall (subfields_regex self) field = Returns found ->
  call str_lower self field = Returns pairs ->
  filter (fun kv => empty self || truthy kv.2) found !! i = Some kv ->
  pairs !! i = Some pair ->
  let key := match first self with
             | Some f => if truthy f && negb (truthy kv.1) then f else kv.1
             | None => kv.1
             end in
  let key := if lower self then py_lower str_lower key else key in
  let suffix_int := length (filter (fun q => q.1 = key) (take i pairs)) in
  pair.2 = kv.2 /\
  (if zero self || (0 <? suffix_int)
   then py_add key (percent_d_mod (percent_d self) suffix_int)
   else Returns key) = Returns pair.1.
Proof.
  intros Hnumber Hfound Hcall Hkv Hpair. unfold call in Hcall.
  rewrite Hfound in Hcall. cbn [mbind outcome_bind] in Hcall.
  apply (generate_numbering self Hnumber) in Hcall as [Hvalues Hkeys].
  split.
  - destruct (Forall2_lookup_lr _ _ _ _ _ _ Hvalues Hkv Hpair). reflexivity.
  - specialize (Hkeys i kv pair Hkv Hpair). cbn zeta in Hkeys.
    now rewrite lookup_empty in Hkeys.
Qed.

End GeneratorLaws.

(** * The empty field *)

Lemma match_at_must_advance_at_end r p :
  match_at r p [] true = None.
Proof.
  destruct (match_at r p [] true) as [st|] eqn:E; [|reflexivity].
  apply match_at_extends in E as (c & Hc & _ & Hadv).
  destruct c; [now destruct Hadv|discriminate].
Qed.

(** On the empty subject the pattern matches once, at offset 0, with
    nothing in it. *)
Lemma finditer_empty P slot :
  finditer (regex P slot) [] = Some [(0, State 0 [] [(2, [])])].
Proof.
  unfold finditer, budget. cbn [length Nat.mul Nat.add scan].
  rewrite (search_here _ 0 [] false (State 0 [] [(2, [])])) by reflexivity.
  cbn [ptr rest Nat.eqb search].
  now rewrite match_at_must_advance_at_end.
Qed.

(** X6. The empty field. Whatever the marker and the key length, the
    scan of an empty field of the type of the marker finds exactly one
    match, with an empty key slot and an empty value; so a parser that
    does not keep empty pairs returns no pair at all, and a parser that
    keeps them returns one pair, whose value is empty. *)
Theorem X6_empty_field
        (str_lower : list N -> list N)
        (prefix : pyval) (length : Z) (lower : bool) (first : option pyval)
        (empty number zero : bool) (self : t) (field : pyval) :
  init prefix length lower first empty number zero = Returns self ->
  type_of field = type_of prefix ->
  units field = [] ->
  pattern_findall (subfields_regex self) field = Returns [(field, field)] /\
  (empty = false -> call str_lower self field = Returns []) /\
  (empty = true ->
   forall pairs, call str_lower self field = Returns pairs ->
                 exists key, pairs = [(key, field)]).
Proof.
  intros Hinit Hty Hunits. unfold init in Hinit.
  apply bind_Returns in Hinit as (slot & _ & [= <-]).
  assert (Hfound : pattern_findall
                     (Pattern (type_of prefix) (regex (units prefix) slot))
                     field = Returns [(field, field)]).
  { unfold pattern_findall. cbn [pattern_type pattern_re].
    rewrite Hty, pytype_eqb_refl. unfold findall.
    rewrite Hunits, finditer_empty.
    cbn [map snd getslice marks group Nat.eqb default fst].
    rewrite <- Hty. destruct field; cbn in Hunits; subst; reflexivity. }
  cbn [subfields_regex]. split; [exact Hfound|].
  unfold call. cbn [subfields_regex]. rewrite Hfound.
  cbn [mbind outcome_bind generate SubfieldParser.empty].
  unfold truthy. rewrite Hunits. split.
  - intros ->. reflexivity.
  - intros -> pairs H. cbn [orb] in H.
    apply bind_Returns in H as (key & _ & [= <-]). eauto.
Qed.

(** * The command line module *)

Lemma fold_left_apply_snoc {A : Type} (ds : list (A -> A)) (d : A -> A)
      (f : A) :
  fold_left (fun f d => d f) (ds ++ [d]) f
  = d (fold_left (fun f d => d f) ds f).
Proof. now rewrite fold_left_app. Qed.

(** X7. [apply_decorators] stacks the decorators in the order written,
    the first outermost, as the decorator syntax does: applying a tuple
    that begins with [d] is applying [d] to the result of the rest, and
    applying two tuples joined is applying the first to the result of
    the second. *)
Theorem X7_apply_decorators_stacks_in_order
        {A : Type} (d : A -> A) (ds1 ds2 : list (A -> A)) (func : A) :
  apply_decorators (d :: ds1) func = d (apply_decorators ds1 func) /\
  apply_decorators (ds1 ++ ds2) func
  = apply_decorators ds1 (apply_decorators ds2 func).
Proof.
  unfold apply_decorators. split.
  - cbn [rev]. apply fold_left_apply_snoc.
  - now rewrite rev_app_distr, fold_left_app.
Qed.

(** * The shape of a match and how matches tile the field *)

Lemma regex_tail_shape P L st k out :
  mt (Seq (Group 2 Min_repeat_any)
          (Assert (Branch At_end (Seq (Literal P) (Any_n L))))) st k
  = Some out ->
  exists v l',
    rest st = v ++ l' /\
    k (State (ptr st + length v) l' ((2, v) :: marks st)) = Some out /\
    (at_end l' = true \/ marker_at P L l').
Proof.
  cbn [mt]. intros H.
  apply min_repeat_inv in H as (c & l' & Hl & H). cbn [ptr rest marks] in H.
  exists c, l'. split; [exact Hl|].
  replace (take (ptr st + length c - ptr st) (rest st)) with c in H.
  2:{ replace (ptr st + length c - ptr st) with (length c) by lia.
      now rewrite Hl, take_app_length. }
  destruct (at_end l') eqn:Eend; [split; [exact H|now left]|].
  destruct (strip P l') as [l1|] eqn:Es; [|discriminate].
  destruct (Nat.leb_spec L (length l1)) as [HL|]; [|discriminate].
  split; [exact H|]. right. exists l1. auto.
Qed.

(** A match of the pattern with a key slot of [L] units, in full: what
    it consumed, its groups, and what lies ahead where it stopped. *)
Lemma match_at_shape P L p l must_advance st :
  match_at (regex P (Any_n L)) p l must_advance = Some st ->
  (must_advance = true -> ptr st <> p) /\
  (at_end (rest st) = true \/ marker_at P L (rest st)) /\
  ((p = 0 /\ exists v,
      l = v ++ rest st /\ ptr st = length v /\ marks st = [(2, v)]) \/
   (exists key v,
      l = P ++ key ++ v ++ rest st /\ length key = L /\
      ptr st = p + length P + L + length v /\
      marks st = [(2, v); (1, key)])).
Proof.
  unfold match_at, regex. rewrite mt_Seq, mt_Branch, mt_At_beginning.
  cbn [ptr]. intros H.
  destruct (if p =? 0 then _ else None) as [o|] eqn:E1.
  - injection H as ->. destruct (Nat.eqb_spec p 0) as [->|]; [|discriminate].
    apply regex_tail_shape in E1 as (v & l' & Hl & H & Hla).
    apply success_inv in H as [<- Hadv]. cbn [ptr rest marks] in *.
    repeat split; try assumption. left. split; [reflexivity|]. eauto.
  - clear E1. rewrite mt_Seq, mt_Literal in H. cbn [rest ptr marks] in H.
    destruct (strip P l) as [l1|] eqn:Es; [|discriminate].
    apply strip_Some in Es as ->.
    rewrite mt_Group, mt_Any_n in H. cbn [rest ptr marks] in H.
    destruct (Nat.leb_spec L (length l1)) as [HL|]; [|discriminate].
    apply regex_tail_shape in H as (v & l' & Hl & H & Hla).
    apply success_inv in H as [<- Hadv]. cbn [ptr rest marks] in *.
    repeat split; try assumption. right.
    exists (take L l1), v.
    replace (p + length P + L - (p + length P)) with L by lia.
    rewrite <- Hl, take_drop, length_take. repeat split. lia.
Qed.

Lemma min_repeat_is_Some {A} (k : nat -> list N -> option A) :
  forall l p, is_Some (k (p + length l) []) -> is_Some (min_repeat p l k).
Proof.
  induction l as [|x l IH]; intros p; simpl.
  - rewrite Nat.add_0_r. intros [a ->]. eauto.
  - intros H. destruct (k p (x :: l)); [eauto|].
    apply IH. now rewrite Nat.add_succ_r in H.
Qed.

(** Without the demand to advance, the pattern matches at offset 0. *)
Lemma match_at_start P L l :
  is_Some (match_at (regex P (Any_n L)) 0 l false).
Proof.
  unfold match_at, regex. rewrite mt_Seq, mt_Branch, mt_At_beginning.
  cbn [ptr Nat.eqb].
  assert (is_Some (mt (Seq (Group 2 Min_repeat_any)
                           (Assert (Branch At_end
                                      (Seq (Literal P) (Any_n L)))))
                      (State 0 l []) (success false 0))) as [o ->]; [|eauto].
  cbn [mt ptr rest marks]. apply min_repeat_is_Some.
  cbn [at_end]. unfold success. cbn [andb]. eauto.
Qed.

(** And it matches wherever the prefix and a full key slot lie ahead. *)
Lemma match_at_marker P L p l :
  p <> 0 -> marker_at P L l ->
  is_Some (match_at (regex P (Any_n L)) p l false).
Proof.
  intros Hp (l1 & Hs & HL).
  unfold match_at, regex. rewrite mt_Seq, mt_Branch, mt_At_beginning.
  cbn [ptr]. destruct (Nat.eqb_spec p 0) as [|_]; [contradiction|].
  rewrite mt_Seq, mt_Literal. cbn [rest ptr marks]. rewrite Hs.
  rewrite mt_Group, mt_Any_n. cbn [rest ptr marks].
  destruct (Nat.leb_spec L (length l1)) as [_|]; [|lia].
  cbn [mt ptr rest marks]. apply min_repeat_is_Some.
  cbn [at_end]. unfold success. cbn [andb]. eauto.
Qed.

Lemma at_end_suffix_nil (l : list N) :
  last l <> Some newline ->
  forall c l', l = c ++ l' -> at_end l' = true -> l' = [].
Proof.
  intros Hlast c l' -> Hend. destruct l' as [|x l']; [reflexivity|].
  rewrite (at_end_inside c (x :: l') Hlast) in Hend; discriminate.
Qed.

Lemma scan_S fuel r p l must_advance :
  scan (S fuel) r p l must_advance
  = match search r p l must_advance with
    | None => Some []
    | Some (start, st) =>
        match scan fuel r (ptr st) (rest st) (ptr st =? start) with
        | Some ms => Some ((start, st) :: ms)
        | None => None
        end
    end.
Proof. reflexivity. Qed.

Lemma match_text_marker P start st key v :
  marks st = [(2, v); (1, key)] ->
  match_text P (start, st) = P ++ key ++ v.
Proof. unfold match_text, getslice. cbn [snd]. now intros ->. Qed.

(** Past offset 0, when the units ahead are none or begin with a
    marker, the matches found cover them from end to end: each begins
    with the prefix and a full key slot and starts where the one before
    stopped. *)
Lemma scan_tiles_tail P L :
  P <> [] ->
  forall fuel p l ms,
  scan fuel (regex P (Any_n L)) p l false = Some ms ->
  p <> 0 ->
  l = [] \/ marker_at P L l ->
  (forall c l', l = c ++ l' -> at_end l' = true -> l' = []) ->
  l = concat (map (match_text P) ms) /\
  Forall (fun m => exists key,
            group 1 (marks m.2) = Some key /\ length key = L) ms.
Proof.
  intros HP. induction fuel as [|fuel IH]; intros p l ms H Hp Hl Hend;
    [discriminate|].
  cbn [scan] in H. destruct Hl as [->|Hm].
  - assert (search (regex P (Any_n L)) p [] false = None) as Hnone.
    { cbn [search]. destruct (match_at _ p [] false) as [st|] eqn:E;
        [exfalso|reflexivity].
      apply match_at_shape in E as (_ & _ & [[-> _]|(key & v & Hl & _)]);
        [contradiction|].
      destruct P; [contradiction|discriminate]. }
    rewrite Hnone in H. injection H as <-. split; [reflexivity|constructor].
  - destruct (match_at_marker P L p l Hp Hm) as [st Hst].
    rewrite (search_here _ _ _ _ _ Hst) in H.
    apply match_at_shape in Hst
      as (_ & Hla & [[-> _]|(key & v & Hlv & Hk & Hptr & Hmarks)]);
      [contradiction|].
    assert ((ptr st =? p) = false) as Hne.
    { apply Nat.eqb_neq. destruct P; [contradiction|]. simpl in Hptr. lia. }
    rewrite Hne in H.
    destruct (scan fuel _ _ _ _) as [ms'|] eqn:Es; [|discriminate].
    injection H as <-.
    assert (Hend' : forall c l', rest st = c ++ l' ->
                                 at_end l' = true -> l' = []).
    { intros c l' Hc. apply (Hend (P ++ key ++ v ++ c)).
      rewrite Hlv, Hc, <- !app_assoc. reflexivity. }
    apply IH in Es as [Hcat Hall]; [|lia| |exact Hend'].
    + split.
      * cbn [map concat]. rewrite (match_text_marker P p st key v Hmarks).
        rewrite <- Hcat, <- !app_assoc. exact Hlv.
      * constructor; [|exact Hall]. cbn [snd]. rewrite Hmarks.
        exists key. split; [reflexivity|exact Hk].
    + destruct Hla as [Hla|Hla]; [left|right; exact Hla].
      apply (Hend' [] (rest st) eq_refl Hla).
Qed.

(** A field that neither begins with a marker and a full key slot nor
    ends in a newline is covered from end to end by its matches: a
    leading match without key slot, then matches that each begin with
    the prefix and a full key slot. *)
Lemma finditer_tiles P L (l : list N) ms :
  P <> [] ->
  ~ marker_at P L l ->
  last l <> Some newline ->
  finditer (regex P (Any_n L)) l = Some ms ->
  exists st0 ms',
    ms = (0, st0) :: ms' /\
    group 1 (marks st0) = None /\
    l = getslice 2 st0 ++ concat (map (match_text P) ms') /\
    Forall (fun m => exists key,
              group 1 (marks m.2) = Some key /\ length key = L) ms'.
Proof.
  intros HP Hnomarker Hlast. unfold finditer, budget.
  replace (2 * length l + 2) with (S (S (2 * length l))) by lia.
  rewrite scan_S. destruct (match_at_start P L l) as [st0 Hst0].
  rewrite (search_here _ _ _ _ _ Hst0).
  apply match_at_shape in Hst0
    as (_ & Hla & [[_ (v & Hlv & Hptr & Hmarks)]|(key & v & Hlv & Hk & _)]).
  2:{ exfalso. apply Hnomarker. exists (key ++ v ++ rest st0).
      rewrite Hlv, strip_app, !length_app. split; [reflexivity|lia]. }
  pose proof (at_end_suffix_nil l Hlast) as Hend.
  destruct (scan (S (2 * length l)) _ (ptr st0) _ _) as [ms'|] eqn:Es;
    [|discriminate].
  intros [= <-]. exists st0, ms'. split; [reflexivity|].
  split; [now rewrite Hmarks|].
  replace (getslice 2 st0) with v by (unfold getslice; now rewrite Hmarks).
  destruct v as [|x v].
  - simpl in Hlv. subst l. cbn [length] in Hptr. rewrite Hptr in Es.
    assert (rest st0 = []) as Hnil.
    { destruct Hla as [Hla|Hla]; [|contradiction].
      apply (Hend [] (rest st0) eq_refl Hla). }
    rewrite Hnil in Es |- *. cbn [Nat.eqb scan search] in Es.
    rewrite match_at_must_advance_at_end in Es. injection Es as <-.
    split; [reflexivity|constructor].
  - assert ((ptr st0 =? 0) = false) as Hne
        by (apply Nat.eqb_neq; simpl in Hptr; lia).
    rewrite Hne in Es.
    apply (scan_tiles_tail P L HP) in Es as [Hcat Hall].
    + split; [|exact Hall]. rewrite <- Hcat. exact Hlv.
    + simpl in Hptr. lia.
    + destruct Hla as [Hla|Hla]; [left|right; exact Hla].
      apply (Hend (x :: v) (rest st0) Hlv Hla).
    + intros c l' Hc. apply (Hend ((x :: v) ++ c)).
      rewrite Hlv, Hc, <- app_assoc. reflexivity.
Qed.

(** * Rebuilding the field from the pairs *)

Lemma units_mk ty l : units (mk ty l) = l.
Proof. now destruct ty. Qed.

Lemma py_add_units a b c :
  py_add a b = Returns c -> units c = units a ++ units b.
Proof. destruct a, b; simpl; intros [= <-]; reflexivity. Qed.

(** With empty pairs kept and no lower-casing, every match gives a pair
    with the value of the match and a key that begins with its key
    slot. *)
Lemma generate_keeps_slots (str_lower : list N -> list N) (self : t) :
  empty self = true -> lower self = false ->
  forall found key_count pairs,
  generate str_lower self key_count found = Returns pairs ->
  Forall2 (fun kv pair =>
             pair.2 = kv.2 /\
             take (length (units kv.1)) (units pair.1) = units kv.1)
          found pairs.
Proof.
  intros Hempty Hlower.
  induction found as [|[key value] found IH]; intros kc pairs;
    cbn [generate].
  - intros [= <-]. constructor.
  - rewrite Hempty, Hlower. cbn [orb]. intros H.
    apply bind_Returns in H as (key3 & Hkey3 & H).
    apply bind_Returns in H as (ps & H & [= <-]).
    constructor; [|now apply IH in H]. cbn [fst snd].
    split; [reflexivity|].
    destruct (units key) as [|x l] eqn:Eunits; [reflexivity|].
    assert (truthy key = true) as Ht by (unfold truthy; now rewrite Eunits).
    rewrite Ht in Hkey3. cbn [negb] in Hkey3.
    assert (match first self with
            | Some f => if truthy f && false then f else key
            | None => key
            end = key) as Hkey1.
    { destruct (first self) as [f|]; [|reflexivity].
      now rewrite andb_false_r. }
    rewrite Hkey1 in Hkey3. rewrite <- Eunits.
    destruct (number self).
    + destruct (zero self || _).
      * apply py_add_units in Hkey3. now rewrite Hkey3, take_app_length.
      * injection Hkey3 as <-. apply firstn_all.
    + injection Hkey3 as <-. apply firstn_all.
Qed.

Lemma resynth_later P L ty (ms : list (nat * state)) :
  Forall (fun m => exists key,
            group 1 (marks m.2) = Some key /\ length key = L) ms ->
  forall later,
  Forall2 (fun kv pair =>
             pair.2 = kv.2 /\
             take (length (units kv.1)) (units pair.1) = units kv.1)
          (map (fun kv => (mk ty kv.1, mk ty kv.2))
               (map (fun m => (getslice 1 m.2, getslice 2 m.2)) ms))
          later ->
  concat (map (fun kv => P ++ take L (units kv.1) ++ units kv.2) later)
  = concat (map (match_text P) ms).
Proof.
  induction 1 as [|m ms (key & Hkey & HL) _ IH]; intros later Hrel.
  - cbn [map] in Hrel. apply Forall2_nil_inv_l in Hrel as ->. reflexivity.
  - cbn [map fst snd] in Hrel.
    apply Forall2_cons_inv_l in Hrel as (pair & later' & [Hv Hk] & Hrel & ->).
    cbn [fst snd] in Hv, Hk. rewrite units_mk in Hk.
    cbn [map concat]. rewrite (IH later' Hrel). f_equal.
    unfold match_text, getslice in *. rewrite Hkey in *. simpl in Hk.
    rewrite HL in Hk. now rewrite Hk, Hv, units_mk.
Qed.

(** On the units alone: with empty pairs kept and no lower-casing, the
    first value, then for every later pair the marker, the first
    [length] units of the key and the value, are the units of the
    field. *)
Lemma call_tiles_field
        (str_lower : list N -> list N)
        (prefix : pyval) (length : Z) (first : option pyval)
        (number zero : bool) (field : pyval)
        (pairs : list (pyval * pyval)) :
  (0 <= length)%Z ->
  units prefix <> [] ->
  ~ marker_at (units prefix) (Z.to_nat length) (units field) ->
  last (units field) <> Some newline ->
  (self ← init prefix length false first true number zero;
   call str_lower self field) = Returns pairs ->
  resynth (units prefix) (Z.to_nat length) pairs = Some (units field).
Proof.
  intros Hlen HP Hnomarker Hlast H.
  apply bind_Returns in H as (self & Hinit & H).
  unfold init, key_slot in Hinit.
  destruct (Z.ltb_spec length 0) as [Hneg|_]; [lia|].
  destruct (MAXREPEAT <=? length)%Z; [discriminate|].
  injection Hinit as <-.
  unfold call in H. apply bind_Returns in H as (found & Hfound & H).
  apply (generate_keeps_slots str_lower) in H; [|reflexivity..].
  unfold pattern_findall in Hfound.
  cbn [subfields_regex pattern_type pattern_re] in Hfound.
  destruct (pytype_eqb _ _); [|discriminate].
  unfold findall in Hfound.
  destruct (finditer _ _) as [ms|] eqn:Hms; [|discriminate].
  injection Hfound as <-.
  apply (finditer_tiles _ _ _ _ HP Hnomarker Hlast) in Hms
    as (st0 & ms' & -> & Hg1 & Hcat & Hall).
  cbn [map fst snd] in H.
  apply Forall2_cons_inv_l in H as (pair & later & [Hv _] & Hrel & ->).
  cbn [fst snd] in Hv. unfold resynth. f_equal.
  rewrite Hv, units_mk.
  rewrite (resynth_later _ _ _ ms' Hall later Hrel). now rewrite <- Hcat.
Qed.

Lemma py_add_type a b c :
  py_add a b = Returns c -> type_of c = type_of a /\ type_of b = type_of a.
Proof. destruct a, b; simpl; intros [= <-]; auto. Qed.

(** Matches of one type and a [first] of that type give pairs of that
    type. *)
Lemma generate_types (str_lower : list N -> list N) (self : t) ty :
  (forall f, first self = Some f -> type_of f = ty) ->
  forall found key_count pairs,
  Forall (fun kv => type_of kv.1 = ty /\ type_of kv.2 = ty) found ->
  generate str_lower self key_count found = Returns pairs ->
  Forall (fun kv => type_of kv.1 = ty /\ type_of kv.2 = ty) pairs.
Proof.
  intros Hfirst.
  induction found as [|[key value] found IH]; intros kc pairs Hty H.
  - injection H as <-. constructor.
  - apply Forall_cons in Hty as [[Hk Hv] Hty]. cbn [fst snd] in Hk, Hv.
    cbn [generate] in H.
    destruct (empty self || truthy value); [|now apply (IH kc)].
    apply bind_Returns in H as (key3 & Hkey3 & H).
    apply bind_Returns in H as (later & Hlater & H).
    injection H as <-. apply IH in Hlater; [|exact Hty].
    constructor; [|exact Hlater]. cbn [fst snd]. split; [|exact Hv].
    set (key1 := match first self with
                 | Some f => if truthy f && negb (truthy key) then f else key
                 | None => key
                 end) in *.
    assert (H1 : type_of key1 = ty).
    { subst key1. destruct (first self) as [f|]; [|exact Hk].
      destruct (truthy f && negb (truthy key)); [now apply Hfirst|exact Hk]. }
    set (key2 := if lower self then py_lower str_lower key1 else key1) in *.
    assert (H2 : type_of key2 = ty).
    { subst key2. destruct (lower self); [|exact H1].
      now rewrite type_of_py_lower. }
    destruct (number self).
    + destruct (zero self || _).
      * apply py_add_type in Hkey3 as [-> _]. exact H2.
      * now injection Hkey3 as <-.
    + now injection Hkey3 as <-.
Qed.

(** On operands that are all [str], the expression of the test module
    returns the [str] whose units [resynth] gives. *)
Lemma field_resynth_str (prefix : pyval) (length : Z)
      (expected : list (pyval * pyval)) :
  type_of prefix = TStr -> (0 <= length)%Z ->
  Forall (fun kv => type_of kv.1 = TStr /\ type_of kv.2 = TStr) expected ->
  field_resynth prefix length expected
  = (fun u => Returns (Str u))
      <$> resynth (units prefix) (Z.to_nat length) expected.
Proof.
  intros HP Hlen Hty. destruct expected as [|[k0 v0] later]; [reflexivity|].
  apply Forall_cons in Hty as [[_ Hv0] Hty]. cbn [fst snd] in Hv0.
  cbn [field_resynth resynth fmap option_fmap option_map fst snd]. f_equal.
  assert (Hitems :
    outcome_map (fun kv => marked ← py_add prefix (py_slice_to length kv.1);
                           py_add marked kv.2) later
    = Returns (map (fun kv => Str (units prefix
                                     ++ take (Z.to_nat length) (units kv.1)
                                     ++ units kv.2)) later)).
  { induction Hty as [|[k v] later [Hk Hv] _ IH]; [reflexivity|].
    cbn [fst snd] in Hk, Hv. cbn [outcome_map map fst snd]. rewrite IH.
    unfold py_slice_to. destruct (Z.leb_spec 0 length) as [_|]; [|lia].
    destruct prefix as [P|P]; [|discriminate].
    destruct k as [k|k]; [|discriminate]. destruct v as [v|v]; [|discriminate].
    cbn. now rewrite <- app_assoc. }
  rewrite Hitems. cbn [mbind outcome_bind]. unfold str_join.
  replace (forallb _ _) with true
    by (symmetry; apply forallb_forall; intros item Hin;
        apply in_map_iff in Hin as (kv & <- & _); reflexivity).
  rewrite map_map. cbn [units].
  destruct v0 as [v0|v0]; [|discriminate]. reflexivity.
Qed.

(** On [bytes] the same pairs tile the field, and the expression of
    the test module raises: its join is the join of a [str]. *)
Example field_resynth_of_bytes_raises :
  (self ← init (B_ "^") 1 false (Some (B_ "_")) true true false;
   call ascii_lower self (B_ "data^ttext"))
  = Returns [(B_ "_", B_ "data"); (B_ "t", B_ "text")]
  /\ resynth (codes "^") 1 [(B_ "_", B_ "data"); (B_ "t", B_ "text")]
     = Some (codes "data^ttext")
  /\ field_resynth (B_ "^") 1 [(B_ "_", B_ "data"); (B_ "t", B_ "text")]
     = Some (Raises TypeError).
Proof. repeat split; vm_compute; reflexivity. Qed.

(** X8. Rebuilding a [str] field. For a non-empty [str] marker, a key
    length that is not negative and a [first] that is unset or a [str],
    with empty pairs kept and no lower-casing: when the call on a field
    that neither begins with the marker followed by a full key slot nor
    ends in a newline returns its pairs, the expression by which the
    test module rebuilds a field, evaluated on these pairs (the value
    of the first pair, added to the join, by the empty [str], of the
    marker, the first [length] units of the key and the value of every
    later pair), returns the field. On [bytes] the same expression
    raises TypeError. *)
Theorem X8_str_pairs_rebuild_the_field
        (str_lower : list N -> list N)
        (prefix : pyval) (length : Z) (first : option pyval)
        (number zero : bool) (field : pyval)
        (pairs : list (pyval * pyval)) :
  type_of prefix = TStr ->
  (forall f, first = Some f -> type_of f = TStr) ->
  (0 <= length)%Z ->
  units prefix <> [] ->
  ~ marker_at (units prefix) (Z.to_nat length) (units field) ->
  last (units field) <> Some newline ->
  (self ← init prefix length false first true number zero;
   call str_lower self field) = Returns pairs ->
  field_resynth prefix length pairs = Some (Returns field).
Proof.
  intros Hstr Hfirst Hlen HP Hnomarker Hlast H.
  pose proof (call_tiles_field str_lower prefix length first number zero
                               field pairs Hlen HP Hnomarker Hlast H) as Hu.
  apply bind_Returns in H as (self & Hinit & H).
  unfold init, key_slot in Hinit.
  destruct (Z.ltb_spec length 0) as [Hneg|_]; [lia|].
  destruct (MAXREPEAT <=? length)%Z; [discriminate|].
  injection Hinit as <-.
  unfold call in H. apply bind_Returns in H as (found & Hfound & H).
  unfold pattern_findall in Hfound.
  cbn [subfields_regex pattern_type pattern_re] in Hfound.
  rewrite Hstr in Hfound.
  destruct field as [f|f]; cbn [type_of pytype_eqb] in Hfound;
    [|discriminate].
  destruct (findall _ _) as [slices|]; [|discriminate].
  injection Hfound as <-.
  apply (generate_types str_lower _ TStr) in H.
  - rewrite (field_resynth_str prefix length pairs Hstr Hlen H), Hu.
    reflexivity.
  - exact Hfirst.
  - apply Forall_map, Forall_true. intros kv. cbn. auto.
Qed.

(** * The order of the values *)

Lemma slices_weaken vs l x :
  slices_in_order vs l -> slices_in_order vs (x ++ l).
Proof.
  intros H. inversion H as [|v vs' gap l0 H0]; subst; [constructor|].
  rewrite app_assoc. now constructor.
Qed.

(** The values of the matches of a scan lie in the units scanned in the
    order of the matches, without overlap. *)
Lemma scan_slices P L :
  forall fuel p l must_advance ms,
  scan fuel (regex P (Any_n L)) p l must_advance = Some ms ->
  slices_in_order (map (fun m => getslice 2 m.2) ms) l.
Proof.
  induction fuel as [|fuel IH]; intros p l ma ms; [discriminate|].
  rewrite scan_S.
  destruct (search _ p l ma) as [[start st]|] eqn:E;
    [|intros [= <-]; constructor].
  destruct (scan fuel _ _ _ _) as [ms'|] eqn:Es; [|discriminate].
  intros [= <-]. apply IH in Es.
  apply search_inv in E as (c1 & l2 & ma' & -> & _ & E & _).
  cbn [map snd].
  apply match_at_shape in E
    as (_ & _ & [[_ (v & -> & _ & Hm)]|(key & v & -> & _ & _ & Hm)]);
    unfold getslice at 1; rewrite Hm; cbn [group Nat.eqb default].
  - now constructor.
  - replace (c1 ++ P ++ key ++ v ++ rest st)
      with ((c1 ++ P ++ key) ++ v ++ rest st) by now rewrite <- !app_assoc.
    now constructor.
Qed.

Lemma generate_slices (str_lower : list N -> list N) (self : t) :
  forall found key_count pairs l,
  generate str_lower self key_count found = Returns pairs ->
  slices_in_order (map (fun kv => units kv.2) found) l ->
  slices_in_order (map (fun pair => units pair.2) pairs) l.
Proof.
  induction found as [|[key value] found IH]; intros kc pairs l;
    cbn [generate].
  - intros [= <-] _. constructor.
  - cbn [map snd]. intros H Hs.
    inversion Hs as [|v vs gap l0 H0]; subst.
    destruct (empty self || truthy value).
    + apply bind_Returns in H as (key3 & _ & H).
      apply bind_Returns in H as (ps & H & [= <-]).
      cbn [map snd]. constructor. now apply (IH _ _ _ H).
    + rewrite app_assoc. apply slices_weaken. now apply (IH _ _ _ H).
Qed.

(** X9. The order of the values. For a key length that is not
    negative, the values of the pairs of a call lie in the field one
    after the other, in the order in which the pairs come out and
    without overlap: every value is a stretch of the field, and a later
    pair's value starts after the end of an earlier pair's value. *)
Theorem X9_values_lie_in_the_field_in_order
        (str_lower : list N -> list N)
        (prefix : pyval) (length : Z) (lower : bool) (first : option pyval)
        (empty number zero : bool) (field : pyval)
        (pairs : list (pyval * pyval)) :
  (0 <= length)%Z ->
  (self ← init prefix length lower first empty number zero;
   call str_lower self field) = Returns pairs ->
  slices_in_order (map (fun pair => units pair.2) pairs) (units field).
Proof.
  intros Hlen H.
  apply bind_Returns in H as (self & Hinit & H).
  unfold init, key_slot in Hinit.
  destruct (Z.ltb_spec length 0) as [Hneg|_]; [lia|].
  destruct (MAXREPEAT <=? length)%Z; [discriminate|].
  injection Hinit as <-.
  unfold call in H. apply bind_Returns in H as (found & Hfound & H).
  apply (generate_slices _ _ _ _ _ _ H).
  unfold pattern_findall in Hfound.
  cbn [subfields_regex pattern_type pattern_re] in Hfound.
  destruct (pytype_eqb _ _); [|discriminate].
  unfold findall in Hfound.
  destruct (finditer _ _) as [ms|] eqn:Hms; [|discriminate].
  injection Hfound as <-.
  apply scan_slices in Hms.
  rewrite !map_map. cbn [snd].
  erewrite map_ext; [exact Hms|].
  intros m. cbn. apply units_mk.
Qed.

(** * The leading match *)

(** Without the demand to advance, the pattern matches at offset 0,
    whatever the key slot. *)
Lemma match_at_offset_0 P slot l :
  is_Some (match_at (regex P slot) 0 l false).
Proof.
  unfold match_at, regex. rewrite mt_Seq, mt_Branch, mt_At_beginning.
  cbn [ptr Nat.eqb].
  assert (is_Some (mt (Seq (Group 2 Min_repeat_any)
                           (Assert (Branch At_end (Seq (Literal P) slot))))
                      (State 0 l []) (success false 0))) as [o ->]; [|eauto].
  rewrite mt_Seq, mt_Group.
  change (mt Min_repeat_any ?st ?k)
    with (min_repeat (ptr st) (rest st)
                     (fun p l => k (State p l (marks st)))).
  apply min_repeat_is_Some. cbn [ptr rest marks].
  change (mt (Assert ?r) ?st ?k)
    with (match mt r st Some with
          | Some st' => k (State (ptr st) (rest st) (marks st'))
          | None => None
          end).
  rewrite mt_Branch. cbn [mt rest at_end]. unfold success. cbn [andb]. eauto.
Qed.

(** X10. The leading pair. Every field has a match at offset 0, so a
    parser that keeps empty pairs never returns an empty list: when the
    call returns, there is at least one pair. *)
Theorem X10_keeping_empty_pairs_gives_a_pair
        (str_lower : list N -> list N)
        (prefix : pyval) (length : Z) (lower : bool) (first : option pyval)
        (number zero : bool) (field : pyval)
        (pairs : list (pyval * pyval)) :
  (self ← init prefix length lower first true number zero;
   call str_lower self field) = Returns pairs ->
  pairs <> [].
Proof.
  intros H.
  apply bind_Returns in H as (self & Hinit & H).
  unfold init in Hinit. apply bind_Returns in Hinit as (slot & _ & [= <-]).
  unfold call in H. apply bind_Returns in H as (found & Hfound & H).
  unfold pattern_findall in Hfound.
  cbn [subfields_regex pattern_type pattern_re] in Hfound.
  destruct (pytype_eqb _ _); [|discriminate].
  unfold findall, finditer, budget in Hfound.
  replace (2 * List.length (units field) + 2)
    with (S (2 * List.length (units field) + 1)) in Hfound by lia.
  rewrite scan_S in Hfound.
  destruct (match_at_offset_0 (units prefix) slot (units field)) as [st Hst].
  rewrite (search_here _ _ _ _ _ Hst) in Hfound.
  destruct (scan _ _ _ _ _) as [ms|]; [|discriminate].
  injection Hfound as <-. cbn [map generate SubfieldParser.empty orb] in H.
  apply bind_Returns in H as (key & _ & H).
  apply bind_Returns in H as (ps & _ & [= <-]). discriminate.
Qed.

(** * A field of the other type *)

(** X11. A field of the other type. When the field is not of the type
    of the marker ([str] against [bytes]), the call raises a
    [TypeError] and gives no pair, whatever the other options. *)
Theorem X11_field_of_the_other_type_raises
        (str_lower : list N -> list N)
        (prefix : pyval) (length : Z) (lower : bool) (first : option pyval)
        (empty number zero : bool) (self : t) (field : pyval) :
  init prefix length lower first empty number zero = Returns self ->
  type_of field <> type_of prefix ->
  call str_lower self field = Raises TypeError.
Proof.
  intros Hinit Hty. unfold init in Hinit.
  apply bind_Returns in Hinit as (slot & _ & [= <-]).
  unfold call, pattern_findall. cbn [subfields_regex pattern_type].
  destruct (type_of prefix), (type_of field); try contradiction; reflexivity.
Qed.

(** * Text and bytes *)

#[local] Instance as_other_type_inj : Inj (=) (=) as_other_type.
Proof. intros [a|a] [b|b]; simpl; congruence. Qed.

Lemma truthy_as_other_type v : truthy (as_other_type v) = truthy v.
Proof. now destruct v. Qed.

Lemma units_as_other_type v : units (as_other_type v) = units v.
Proof. now destruct v. Qed.

Lemma py_add_as_other_type a b :
  py_add (as_other_type a) (as_other_type b)
  = (c ← py_add a b; Returns (as_other_type c)).
Proof. now destruct a, b. Qed.

Lemma percent_d_mod_as_other_type fmt n :
  percent_d_mod (as_other_type fmt) n = as_other_type (percent_d_mod fmt n).
Proof. now destruct fmt. Qed.

(** Without lower-casing the generator treats the two types alike:
    with every string involved turned into the other type, it gives the
    same pairs turned into the other type. *)
Lemma generate_as_other_type (str_lower : list N -> list N)
      first empty number zero fmt pat pat' :
  forall found key_count,
  generate str_lower
           (Build false (as_other_type <$> first) empty number zero
                  (as_other_type fmt) pat')
           (kmap as_other_type key_count)
           (map (fun kv => (as_other_type kv.1, as_other_type kv.2)) found)
  = (pairs ← generate str_lower
               (Build false first empty number zero fmt pat)
               key_count found;
     Returns (map (fun kv => (as_other_type kv.1, as_other_type kv.2))
                  pairs)).
Proof.
  induction found as [|[key value] found IH]; intros kc; [reflexivity|].
  cbn [generate map fst snd SubfieldParser.lower SubfieldParser.first
       SubfieldParser.empty SubfieldParser.number SubfieldParser.zero
       SubfieldParser.percent_d].
  rewrite truthy_as_other_type.
  destruct (empty || truthy value); [|apply IH].
  set (key1 := match first with
               | Some f => if truthy f && negb (truthy key) then f else key
               | None => key
               end).
  assert (match as_other_type <$> first with
          | Some f =>
              if truthy f && negb (truthy (as_other_type key)) then f
              else as_other_type key
          | None => as_other_type key
          end = as_other_type key1) as ->.
  { subst key1. destruct first as [f|]; cbn [fmap option_fmap option_map];
      [|reflexivity].
    rewrite !truthy_as_other_type.
    now destruct (truthy f && negb (truthy key)). }
  rewrite lookup_kmap by apply _.
  assert ((if number
           then if zero || (0 <? default 0 (kc !! key1))
                then py_add (as_other_type key1)
                            (percent_d_mod (as_other_type fmt)
                                           (default 0 (kc !! key1)))
                else Returns (as_other_type key1)
           else Returns (as_other_type key1))
          = (key3 ← (if number
                     then if zero || (0 <? default 0 (kc !! key1))
                          then py_add key1
                                 (percent_d_mod fmt (default 0 (kc !! key1)))
                          else Returns key1
                     else Returns key1);
             Returns (as_other_type key3))) as ->.
  { destruct number; [|reflexivity].
    destruct (zero || _); [|reflexivity].
    now rewrite percent_d_mod_as_other_type, py_add_as_other_type. }
  destruct (if number then _ else _) as [key3| |]; try reflexivity.
  cbn [mbind outcome_bind].
  rewrite lookup_kmap by apply _.
  rewrite <- (kmap_insert as_other_type), IH.
  now destruct (generate _ _ _ found).
Qed.

(** X12. Text and bytes. Without lower-casing the parser treats [str]
    and [bytes] alike: built from the marker and [first] turned into the
    other type and called on the field turned into the other type, it
    gives the same outcome, with the same pairs turned into the other
    type. *)
Theorem X12_str_and_bytes_alike
        (str_lower : list N -> list N)
        (prefix : pyval) (length : Z) (first : option pyval)
        (empty number zero : bool) (field : pyval) :
  (self ← init (as_other_type prefix) length false
               (as_other_type <$> first) empty number zero;
   call str_lower self (as_other_type field))
  = (pairs ← (self ← init prefix length false first empty number zero;
              call str_lower self field);
     Returns (map (fun kv => (as_other_type kv.1, as_other_type kv.2))
                  pairs)).
Proof.
  unfold init. rewrite units_as_other_type.
  destruct (key_slot length) as [slot| |]; try reflexivity.
  cbn [mbind outcome_bind]. unfold call, pattern_findall.
  cbn [subfields_regex pattern_type pattern_re].
  rewrite units_as_other_type.
  replace (pytype_eqb (type_of (as_other_type prefix))
                      (type_of (as_other_type field)))
    with (pytype_eqb (type_of prefix) (type_of field))
    by now destruct prefix, field.
  destruct (pytype_eqb _ _); [|reflexivity].
  destruct (findall _ _) as [found|]; [|reflexivity].
  cbn [mbind outcome_bind].
  replace (map (fun kv => (mk (type_of (as_other_type field)) kv.1,
                           mk (type_of (as_other_type field)) kv.2)) found)
    with (map (fun kv => (as_other_type kv.1, as_other_type kv.2))
              (map (fun kv => (mk (type_of field) kv.1,
                               mk (type_of field) kv.2)) found)).
  2:{ rewrite map_map. apply map_ext. intros kv. now destruct field. }
  replace (mk (type_of (as_other_type prefix)) (codes "%d"))
    with (as_other_type (mk (type_of prefix) (codes "%d")))
    by now destruct prefix.
  rewrite <- (kmap_empty as_other_type).
  apply generate_as_other_type.
Qed.

(** * Instances of the properties with hypotheses *)

Lemma X1_witness :
  exists found pairs,
    pattern_findall (Pattern TStr (regex (codes "^") (Any_n 1)))
                    (S_ "a^b^cd") = Returns found /\
    call ascii_lower
         (Build false None false true false (S_ "%d")
                (Pattern TStr (regex (codes "^") (Any_n 1))))
         (S_ "a^b^cd") = Returns pairs /\
    pairs = [(S_ "", S_ "a"); (S_ "c", S_ "d")] /\
    map snd pairs
    = filter (fun value => false || truthy value) (map snd found).
Proof.
  eexists _, _.
  split; [vm_compute; reflexivity|].
  split; [vm_compute; reflexivity|].
  split; [reflexivity|].
  apply (X1_values_are_the_retained_match_values
           ascii_lower
           (Build false None false true false (S_ "%d")
                  (Pattern TStr (regex (codes "^") (Any_n 1))))
           (S_ "a^b^cd"));
    vm_compute; reflexivity.
Defined.

Lemma X3_witness :
  number (Build true (Some (B_ "K")) true false true (S_ "%d")
                (Pattern TStr (regex (codes "^") (Any_n 1)))) = false /\
  call ascii_lower
       (Build true (Some (B_ "K")) true false true (S_ "%d")
              (Pattern TStr (regex (codes "^") (Any_n 1))))
       (S_ "a^Bc")
  = Returns [(B_ "k", S_ "a"); (S_ "b", S_ "c")].
Proof.
  split; [reflexivity|].
  rewrite (X3_without_numbering_keys_are_not_suffixed
             ascii_lower
             (Build true (Some (B_ "K")) true false true (S_ "%d")
                    (Pattern TStr (regex (codes "^") (Any_n 1))))
             (S_ "a^Bc") eq_refl).
  vm_compute. reflexivity.
Defined.

Lemma X5_witness :
  number (Build false None false true false (S_ "%d")
                (Pattern TStr (regex (codes "^") (Any_n 1)))) = true /\
  pattern_findall (Pattern TStr (regex (codes "^") (Any_n 1)))
                  (S_ "x^ay^az")
  = Returns [(S_ "", S_ "x"); (S_ "a", S_ "y"); (S_ "a", S_ "z")] /\
  call ascii_lower
       (Build false None false true false (S_ "%d")
              (Pattern TStr (regex (codes "^") (Any_n 1))))
       (S_ "x^ay^az")
  = Returns [(S_ "", S_ "x"); (S_ "a", S_ "y"); (S_ "a1", S_ "z")] /\
  filter (fun kv => false || truthy kv.2)
         [(S_ "", S_ "x"); (S_ "a", S_ "y"); (S_ "a", S_ "z")] !! 2
  = Some (S_ "a", S_ "z") /\
  [(S_ "", S_ "x"); (S_ "a", S_ "y"); (S_ "a1", S_ "z")] !! 2
  = Some (S_ "a1", S_ "z") /\
  (S_ "a1", S_ "z").2 = (S_ "a", S_ "z").2 /\
  py_add (S_ "a") (percent_d_mod (S_ "%d") 1) = Returns (S_ "a1").
Proof.
  assert (H1 : pattern_findall (Pattern TStr (regex (codes "^") (Any_n 1)))
                               (S_ "x^ay^az")
               = Returns [(S_ "", S_ "x"); (S_ "a", S_ "y");
                          (S_ "a", S_ "z")]) by (vm_compute; reflexivity).
  assert (H2 : call ascii_lower
                    (Build false None false true false (S_ "%d")
                           (Pattern TStr (regex (codes "^") (Any_n 1))))
                    (S_ "x^ay^az")
               = Returns [(S_ "", S_ "x"); (S_ "a", S_ "y");
                          (S_ "a1", S_ "z")]) by (vm_compute; reflexivity).
  assert (H3 : filter (fun kv => false || truthy kv.2)
                      [(S_ "", S_ "x"); (S_ "a", S_ "y"); (S_ "a", S_ "z")]
               !! 2 = Some (S_ "a", S_ "z")) by (vm_compute; reflexivity).
  assert (H4 : [(S_ "", S_ "x"); (S_ "a", S_ "y"); (S_ "a1", S_ "z")] !! 2
               = Some (S_ "a1", S_ "z")) by reflexivity.
  split; [reflexivity|]. split; [exact H1|]. split; [exact H2|].
  split; [exact H3|]. split; [exact H4|].
  exact (X5_suffix_counts_earlier_emitted_keys
           ascii_lower
           (Build false None false true false (S_ "%d")
                  (Pattern TStr (regex (codes "^") (Any_n 1))))
           (S_ "x^ay^az") _ _ 2 (S_ "a", S_ "z") (S_ "a1", S_ "z")
           eq_refl H1 H2 H3 H4).
Defined.

Lemma X6_witness :
  exists self,
    init (S_ "^") 1 true (Some (S_ "FIRST")) true true false = Returns self /\
    type_of (S_ "") = type_of (S_ "^") /\
    units (S_ "") = [] /\
    pattern_findall (subfields_regex self) (S_ "")
    = Returns [(S_ "", S_ "")] /\
    call ascii_lower self (S_ "") = Returns [(S_ "first", S_ "")].
Proof.
  eexists. split; [reflexivity|].
  split; [reflexivity|]. split; [reflexivity|].
  destruct (X6_empty_field ascii_lower (S_ "^") 1 true (Some (S_ "FIRST"))
                           true true false _ (S_ "")
                           eq_refl eq_refl eq_refl) as (Hfound & _ & Hone).
  split; [exact Hfound|]. vm_compute. reflexivity.
Defined.

Lemma X8_witness :
  type_of (S_ "^") = TStr /\
  (forall f, Some (S_ "_") = Some f -> type_of f = TStr) /\
  (0 <= 1)%Z /\
  units (S_ "^") <> [] /\
  ~ marker_at (units (S_ "^")) (Z.to_nat 1)
      (units (S_ "data^ttext^len^tTrail")) /\
  last (units (S_ "data^ttext^len^tTrail")) <> Some newline /\
  (self ← init (S_ "^") 1 false (Some (S_ "_")) true true false;
   call ascii_lower self (S_ "data^ttext^len^tTrail"))
  = Returns [(S_ "_", S_ "data"); (S_ "t", S_ "text");
             (S_ "l", S_ "en"); (S_ "t1", S_ "Trail")] /\
  field_resynth (S_ "^") 1
                [(S_ "_", S_ "data"); (S_ "t", S_ "text");
                 (S_ "l", S_ "en"); (S_ "t1", S_ "Trail")]
  = Some (Returns (S_ "data^ttext^len^tTrail")).
Proof.
  assert (H0 : type_of (S_ "^") = TStr) by reflexivity.
  assert (Hf : forall f, Some (S_ "_") = Some f -> type_of f = TStr)
    by (intros f [= <-]; reflexivity).
  assert (H1 : (0 <= 1)%Z) by discriminate.
  assert (H2 : units (S_ "^") <> []) by (vm_compute; discriminate).
  assert (H3 : ~ marker_at (units (S_ "^")) (Z.to_nat 1)
                   (units (S_ "data^ttext^len^tTrail"))).
  { intros (l1 & Hs & _). vm_compute in Hs. discriminate. }
  assert (H4 : last (units (S_ "data^ttext^len^tTrail")) <> Some newline)
    by (vm_compute; discriminate).
  assert (H5 : (self ← init (S_ "^") 1 false (Some (S_ "_")) true true false;
                call ascii_lower self (S_ "data^ttext^len^tTrail"))
               = Returns [(S_ "_", S_ "data"); (S_ "t", S_ "text");
                          (S_ "l", S_ "en"); (S_ "t1", S_ "Trail")])
    by (vm_compute; reflexivity).
  split; [exact H0|]. split; [exact Hf|]. split; [exact H1|].
  split; [exact H2|]. split; [exact H3|]. split; [exact H4|].
  split; [exact H5|].
  exact (X8_str_pairs_rebuild_the_field
           ascii_lower (S_ "^") 1 (Some (S_ "_")) true false
           (S_ "data^ttext^len^tTrail") _ H0 Hf H1 H2 H3 H4 H5).
Defined.

Lemma X9_witness :
  (0 <= 1)%Z /\
  (self ← init (S_ "i") 1 false None false true false;
   call ascii_lower self (S_ "ioisis test"))
  = Returns [(S_ "", S_ "io"); (S_ "s", S_ " test")] /\
  slices_in_order [codes "io"; codes " test"] (codes "ioisis test").
Proof.
  assert (H1 : (0 <= 1)%Z) by discriminate.
  assert (H2 : (self ← init (S_ "i") 1 false None false true false;
                call ascii_lower self (S_ "ioisis test"))
               = Returns [(S_ "", S_ "io"); (S_ "s", S_ " test")])
    by (vm_compute; reflexivity).
  split; [exact H1|]. split; [exact H2|].
  exact (X9_values_lie_in_the_field_in_order
           ascii_lower (S_ "i") 1 false None false true false
           (S_ "ioisis test") _ H1 H2).
Defined.

Lemma X10_witness :
  (self ← init (S_ "x") 1 false None true true false;
   call ascii_lower self (S_ ""))
  = Returns [(S_ "", S_ "")] /\
  [(S_ "", S_ "")] <> [].
Proof.
  assert (H : (self ← init (S_ "x") 1 false None true true false;
               call ascii_lower self (S_ ""))
              = Returns [(S_ "", S_ "")]) by (vm_compute; reflexivity).
  split; [exact H|].
  exact (X10_keeping_empty_pairs_gives_a_pair
           ascii_lower (S_ "x") 1 false None true false (S_ "") _ H).
Defined.

Lemma X11_witness :
  exists self,
    init (B_ "^") 1 false None false true false = Returns self /\
    type_of (S_ "data") <> type_of (B_ "^") /\
    call ascii_lower self (S_ "data") = Raises TypeError.
Proof.
  eexists. split; [reflexivity|].
  assert (H : type_of (S_ "data") <> type_of (B_ "^")) by discriminate.
  split; [exact H|].
  exact (X11_field_of_the_other_type_raises
           ascii_lower (B_ "^") 1 false None false true false _ (S_ "data")
           eq_refl H).
Defined.
